(** * Preview page of the MSX1 palette quantizer (src/routes/+page.svelte)

    A shallow embedding of the script block of [+page.svelte]: the helpers
    [formatSize] and [withAlpha], the scaling done by [drawPreview] when an
    image has been decoded, the three layers of [applyDummyEffect] (tint
    gradient, stripes, sparkles), and the handlers that mutate the page
    state ([addFiles], [removeAll], the file-card click,
    [refreshDummyEffect], [downloadPreview], [downloadOriginal],
    [onDestroy]).  The pixels themselves and the markup are not embedded; a
    decode is represented by the event that completes it, for an image of
    any size.

    JavaScript numbers are IEEE-754 binary64 values.  Finite numbers are
    embedded in [R]; every arithmetic operation of the source is the exact
    operation followed by a rounding operator [rnd], about which only the
    standard model of floating-point arithmetic is assumed (class
    [Binary64]).  The one operation of the source that can leave the finite
    numbers, the division by the width of an image, is treated where it
    occurs.  Numbers that the source keeps integral (image and canvas
    sizes, the result of [Math.round], loop counters, the bytes of a colour)
    live in [Z].  Strings are strings of 8-bit characters. *)

From Stdlib Require Import Reals Lra Lia ZArith String Ascii List.
From stdpp Require Import base gmap sets list strings.
Import ListNotations.

#[local] Set Warnings "-clear-no-such-hyp".

(** ** JavaScript numbers *)

Module JSNum.

(** Unit roundoff of binary64, [2^-53]. *)
Definition eps64 : R := (/ 9007199254740992)%R.

(** Rounding to the nearest binary64 value.  [rnd_err] is only required on a
    range that stays clear of underflow and overflow. *)
Class Binary64 := {
  rnd : R -> R;
  rnd_mono : forall x y : R, (x <= y)%R -> (rnd x <= rnd y)%R;
  rnd_int : forall n : Z, (Z.abs n <= 2 ^ 53)%Z -> rnd (IZR n) = IZR n;
  rnd_idem : forall x : R, rnd (rnd x) = rnd x;
  rnd_err : forall x : R, (1e-300 <= Rabs x <= 1e300)%R ->
            (Rabs (rnd x - x) <= eps64 * Rabs x)%R
}.

(** Built-in functions whose result is left to the implementation.
    [Math.sin] and [Math.cos] are implementation-approximated in ECMAScript:
    they are parameters, tied to the real functions by an accuracy bound.
    [Number_toString] is the conversion of a number to text that template
    literals apply. *)
Class Builtins := {
  Math_sin : R -> R;
  Math_cos : R -> R;
  Math_sin_acc : forall x : R, (Rabs (Math_sin x - sin x) <= 1e-9)%R;
  Math_cos_acc : forall x : R, (Rabs (Math_cos x - cos x) <= 1e-9)%R;
  Number_toString : R -> string
}.

Section Ops.
Context {B64 : Binary64}.

(** A numeric literal denotes the nearest binary64 value. *)
Definition lit (x : R) : R := rnd x.

Definition fadd (x y : R) : R := rnd (x + y).
Definition fmul (x y : R) : R := rnd (x * y).
Definition fdiv (x y : R) : R := rnd (x / y).

(** [Math.round]: the closest integer, ties towards +infinity. *)
Definition Math_round (x : R) : Z := Zfloor (x + / 2).

(** [Math.min] on finite numbers. *)
Definition Math_min (x y : R) : R := Rmin x y.

(** Truncation towards zero. *)
Definition Ztrunc (x : R) : Z :=
  if Rle_dec 0 x then Zfloor x else Zceil x.

(** The [%] operator on finite numbers with a non-zero divisor: the result
    is exact and takes the sign of the dividend. *)
Definition js_rem (n d : R) : R := (n - d * IZR (Ztrunc (n / d)))%R.
End Ops.

End JSNum.

Import JSNum.

(** The operators of the source, each with its rounding. *)
Infix "⊕" := fadd (at level 50, left associativity).
Infix "⊗" := fmul (at level 40, left associativity).
Infix "⊘" := fdiv (at level 40, left associativity).
Infix "%%" := js_rem (at level 40, left associativity).

(** ** [drawPreview]: scaling of the decoded image (img.onload) *)

Module Preview.
Section Scaling.
Context {B64 : Binary64}.

Definition maxWidth : Z := 1024.

(** [const scale = Math.min(1, maxWidth / img.width)].  For a width of 0
    the quotient is [+Infinity], whose minimum with 1 is 1. *)
Definition scale (imgWidth : Z) : R :=
  if (imgWidth =? 0)%Z then 1%R
  else Math_min 1 (IZR maxWidth ⊘ IZR imgWidth).

(** [const width = Math.max(1, Math.round(img.width * scale))] *)
Definition width (imgWidth : Z) : Z :=
  Z.max 1 (Math_round (IZR imgWidth ⊗ scale imgWidth)).

(** [const height = Math.max(1, Math.round(img.height * scale))] *)
Definition height (imgWidth imgHeight : Z) : Z :=
  Z.max 1 (Math_round (IZR imgHeight ⊗ scale imgWidth)).
End Scaling.
End Preview.

(** ** [withAlpha]: hex colour to [rgba(...)] *)

Module Color.

Definition code (c : ascii) : Z := Z.of_N (N_of_ascii c).

(** Value of a hexadecimal digit, as [parseInt] with radix 16 reads it. *)
Definition hex_digit (c : ascii) : option Z :=
  let n := code c in
  if (48 <=? n)%Z && (n <=? 57)%Z then Some (n - 48)%Z
  else if (97 <=? n)%Z && (n <=? 102)%Z then Some (n - 87)%Z
  else if (65 <=? n)%Z && (n <=? 70)%Z then Some (n - 55)%Z
  else None.

(** White space and line terminators skipped by [parseInt] (the ones that
    exist among 8-bit characters). *)
Definition is_white_space (c : ascii) : bool :=
  let n := code c in
  ((9 <=? n)%Z && (n <=? 13)%Z) || (n =? 32)%Z || (n =? 160)%Z.

(** [hex.replace('#', '')]: the first occurrence only. *)
Fixpoint replace_hash (s : string) : string :=
  match s with
  | EmptyString => EmptyString
  | String c rest =>
      if Ascii.eqb c "#" then rest else String c (replace_hash rest)
  end.

(** [s.split('').map((c) => c + c).join('')] *)
Fixpoint double_chars (s : string) : string :=
  match s with
  | EmptyString => EmptyString
  | String c rest => String c (String c (double_chars rest))
  end.

Fixpoint zeros (n : nat) : string :=
  match n with
  | O => EmptyString
  | S k => String "0" (zeros k)
  end.

(** [s.padEnd(6, '0')] *)
Definition padEnd6 (s : string) : string :=
  (s ++ zeros (6 - String.length s))%string.

Fixpoint skip_white_space (s : string) : string :=
  match s with
  | String c rest => if is_white_space c then skip_white_space rest else s
  | EmptyString => EmptyString
  end.

(** Sign prefix of [parseInt]: the sign and the remaining text. *)
Definition strip_sign (s : string) : Z * string :=
  match s with
  | String c rest =>
      if Ascii.eqb c "-" then ((-1)%Z, rest)
      else if Ascii.eqb c "+" then (1%Z, rest)
      else (1%Z, s)
  | EmptyString => (1%Z, s)
  end.

(** With radix 16 a leading [0x] or [0X] is dropped. *)
Definition strip_0x (s : string) : string :=
  match s with
  | String c1 (String c2 rest) =>
      if Ascii.eqb c1 "0" && (Ascii.eqb c2 "x" || Ascii.eqb c2 "X")
      then rest else s
  | _ => s
  end.

(** Longest prefix of hexadecimal digits, accumulated in base 16; [seen]
    records whether at least one digit was read. *)
Fixpoint hex_prefix (s : string) (acc : Z) (seen : bool) : option Z :=
  match s with
  | String c rest =>
      match hex_digit c with
      | Some d => hex_prefix rest (16 * acc + d)%Z true
      | None => if seen then Some acc else None
      end
  | EmptyString => if seen then Some acc else None
  end.

Section WithAlpha.
Context {B64 : Binary64} {BI : Builtins}.

(** [parseInt(s, 16)]; [None] is NaN. *)
Definition parseInt16 (s : string) : option R :=
  let '(sign, body) := strip_sign (skip_white_space s) in
  match hex_prefix (strip_0x body) 0%Z false with
  | Some n => Some (rnd (IZR (sign * n)))
  | None => None
  end.

(** ToInt32, applied to the operands of [>>] and [&]. *)
Definition ToInt32 (num : option R) : Z :=
  match num with
  | None => 0%Z
  | Some x =>
      let m := (Ztrunc x mod 2 ^ 32)%Z in
      if (m <? 2 ^ 31)%Z then m else (m - 2 ^ 32)%Z
  end.

(** Decimal text of an integer, as a template literal prints it. *)
Definition int_toString (n : Z) : string := pretty.pretty n.

Definition withAlpha (hex : string) (alpha : R) : string :=
  let normalized := replace_hash hex in
  let full :=
    if Nat.eqb (String.length normalized) 3
    then double_chars normalized else padEnd6 normalized in
  let num := ToInt32 (parseInt16 full) in
  let r := Z.land (Z.shiftr num 16) 255 in
  let g := Z.land (Z.shiftr num 8) 255 in
  let b := Z.land num 255 in
  ("rgba(" ++ int_toString r ++ ", " ++ int_toString g ++ ", "
     ++ int_toString b ++ ", " ++ Number_toString alpha ++ ")")%string.
End WithAlpha.

End Color.

(** ** [applyDummyEffect]: the tint gradient (lines 99-105) and the sparkle
    layer (lines 119-128) *)

Module Effect.

Record EffectSettings := {
  intensity : R;
  grain : R;
  tint : string
}.

(** Calls issued on the 2D context.  [SetFillGradient] stands for
    [createLinearGradient(x0, y0, x1, y1)], its [addColorStop] calls and the
    assignment of the gradient to [fillStyle]. *)
Inductive CanvasOp :=
| Save
| SetGlobalCompositeOperation (mode : string)
| SetGlobalAlpha (a : R)
| SetFillStyle (style : string)
| SetFillGradient (x0 y0 x1 y1 : R) (stops : list (R * string))
| FillRect (x y w h : R).

Section Sparkle.
Context {B64 : Binary64} {BI : Builtins}.
Variable effectSettings : EffectSettings.
Variable animationSeed : R.

(** The first layer: [ctx.save()], the soft-light gradient from the tint
    to the accent blue, filled over the surface. *)
Definition tintLayer (width height : R) : list CanvasOp :=
  [ Save;
    SetGlobalCompositeOperation "soft-light";
    SetFillGradient 0 0 width height
      [ (0%R, Color.withAlpha (tint effectSettings)
                (lit 0.12 ⊕ intensity effectSettings ⊗ lit 0.25));
        (1%R, Color.withAlpha "#0ea5e9"
                (lit 0.1 ⊕ grain effectSettings ⊗ lit 0.3)) ];
    FillRect 0 0 width height ].

(** [Math.min(1400, Math.round((width + height) * 0.2 * (0.6 + grain)))] *)
Definition sparkCount (width height : R) : Z :=
  Z.min 1400
    (Math_round ((width ⊕ height) ⊗ lit 0.2
                 ⊗ (lit 0.6 ⊕ grain effectSettings))).

(** One iteration of [for (let i = 0; i < sparkCount; i++)]. *)
Definition sparkle_body (width height : R) (i : Z) : list CanvasOp :=
  let x := Rabs (Math_sin (IZR i ⊗ lit 12.9898 ⊕ animationSeed ⊗ lit 1.7)
                 ⊗ lit 43758.5453) %% width in
  let y := Rabs (Math_cos (IZR i ⊗ lit 78.233 ⊕ animationSeed ⊗ lit 0.9)
                 ⊗ lit 12345.6789) %% height in
  let size := 1 ⊕ intensity effectSettings ⊗ 2 in
  [ SetFillStyle
      (Color.withAlpha "#38bdf8"
         (lit 0.12 ⊕ grain effectSettings ⊗ lit 0.18));
    FillRect x y size size ].

(** The loop, [todo] iterations before [i] reaches [sparkCount]. *)
Fixpoint sparkle_loop (width height : R) (todo : nat) (i : Z)
  : list CanvasOp :=
  match todo with
  | O => []
  | S k => sparkle_body width height i
           ++ sparkle_loop width height k (i + 1)
  end.

Definition sparkleLayer (width height : R) : list CanvasOp :=
  [ SetGlobalCompositeOperation "screen";
    SetGlobalAlpha (lit 0.35 ⊗ (lit 0.4 ⊕ grain effectSettings)) ]
  ++ sparkle_loop width height (Z.to_nat (sparkCount width height)) 0.
End Sparkle.

(** The rectangles filled by a list of calls, in order: [(x, y)] of each. *)
Fixpoint fill_coords (ops : list CanvasOp) : list (R * R) :=
  match ops with
  | [] => []
  | FillRect x y _ _ :: rest => (x, y) :: fill_coords rest
  | _ :: rest => fill_coords rest
  end.

(** The documented hash of the sparkle layer, evaluated with JavaScript
    number arithmetic: [x = |sin(i*12.9898 + seed*1.7) * 43758.5453| mod
    width], [y = |cos(i*78.233 + seed*0.9) * 12345.6789| mod height]. *)
Section DocumentedHash.
Context {B64 : Binary64} {BI : Builtins}.

Definition hash_x (i : Z) (width seed : R) : R :=
  Rabs (Math_sin (IZR i ⊗ lit 12.9898 ⊕ seed ⊗ lit 1.7)
        ⊗ lit 43758.5453) %% width.

Definition hash_y (i : Z) (height seed : R) : R :=
  Rabs (Math_cos (IZR i ⊗ lit 78.233 ⊕ seed ⊗ lit 0.9)
        ⊗ lit 12345.6789) %% height.
End DocumentedHash.

End Effect.

(** ** The sparkle hash as documented

    The documented coordinates in real arithmetic, and what [mod] means,
    to compare with what the loop computes in number arithmetic:
    [x = |sin(i*12.9898 + seed*1.7) * 43758.5453| mod width],
    [y = |cos(i*78.233 + seed*0.9) * 12345.6789| mod height]. *)

Module HashSpec.
Local Open Scope R_scope.

(** [r] is [v mod d]: the number of the interval from 0 to [d], [d]
    excluded, that differs from [v] by a whole multiple of [d]. *)
Definition is_mod (v d r : R) : Prop :=
  0 <= r < d /\ exists k : Z, v = IZR k * d + r.

(** [|sin(i*12.9898 + seed*1.7) * 43758.5453|] *)
Definition wave_x (i seed : Z) : R :=
  Rabs (sin (IZR i * 12.9898 + IZR seed * 1.7) * 43758.5453).

(** [|cos(i*78.233 + seed*0.9) * 12345.6789|] *)
Definition wave_y (i seed : Z) : R :=
  Rabs (cos (IZR i * 78.233 + IZR seed * 0.9) * 12345.6789).

(** How far number arithmetic may take a wave from its real value: the
    accuracy of [Math.sin] and [Math.cos] scaled by the amplitude, and the
    roundings of the argument, which grow with the seed. *)
Definition tolerance (seed : Z) : R := 5e-5 + 1e-10 * IZR seed.
End HashSpec.

(** ** Page state and handlers *)

Module Page.

(** A [File] of the picker or of a drop: the fields [addFiles] reads. *)
Record File := {
  file_name : string;
  file_size : Z;
  file_type : string
}.

(** [type UploadedImage = { id; name; size; type; url }]; the fields carry
    a prefix, [id], [size] and [type] being in use in Rocq. *)
Record UploadedImage := {
  img_id : string;
  img_name : string;
  img_size : Z;
  img_type : string;
  img_url : string
}.

(** The [<canvas>] element bound by [bind:this]: its two size attributes. *)
Record Canvas := {
  canvas_width : Z;
  canvas_height : Z
}.

(** The PNG data handed over by [canvas.toBlob]. *)
Record Blob := {
  blob_type : string;
  blob_size : Z
}.

(** A click on a synthesized [<a>]: its [href] and [download] attributes. *)
Record Download := {
  href : string;
  download : string
}.

(** The services of the browser that the handlers call.  [randomUUID n] is
    the value of the [n]-th call of [crypto.randomUUID()], a 36-character
    string; [createObjectURL store] is the URL that [URL.createObjectURL]
    mints when [store] holds the URLs that are live, never one of them. *)
Class Browser := {
  randomUUID : nat -> string;
  randomUUID_length : forall n : nat, String.length (randomUUID n) = 36%nat;
  createObjectURL : gset string -> string;
  createObjectURL_fresh : forall store : gset string,
      createObjectURL store ∉ store
}.

(** Component variables ([uploadedImages], [selectedId], [canvas],
    [animationSeed], [effectSettings]) and the part of the browser the
    handlers act on: the blob URL store, the number of UUIDs drawn, the
    downloads triggered so far and the [toBlob] callbacks still pending. *)
Record State := {
  uploadedImages : list UploadedImage;
  selectedId : option string;
  canvas : option Canvas;
  animationSeed : R;
  effectSettings : Effect.EffectSettings;
  blobStore : gset string;
  uuidCalls : nat;
  downloads : list Download;
  pendingBlobs : nat
}.

(** [!selectedId]: [null] and the empty string are falsy. *)
Definition falsy (s : option string) : bool :=
  match s with
  | None => true
  | Some v => String.eqb v EmptyString
  end.

(** [uploadedImages.find((image) => image.id === selectedId)] *)
Definition selectedImage (st : State) : option UploadedImage :=
  match selectedId st with
  | None => None
  | Some sel =>
      List.find (fun image => String.eqb (img_id image) sel)
                (uploadedImages st)
  end.

(** [uploadedImages.forEach((image) => URL.revokeObjectURL(image.url))] *)
Fixpoint revoke_all (images : list UploadedImage) (store : gset string)
  : gset string :=
  match images with
  | [] => store
  | image :: rest => revoke_all rest (store ∖ {[ img_url image ]})
  end.

Section Handlers.
Context {B64 : Binary64} {BI : Builtins} {BR : Browser}.

(** The [forEach] of [addFiles]: one object URL and one UUID per file,
    the record pushed on [nextImages]. *)
Fixpoint ingest_each (files : list File) (nextImages : list UploadedImage)
         (store : gset string) (calls : nat)
  : list UploadedImage * gset string * nat :=
  match files with
  | [] => (nextImages, store, calls)
  | file :: rest =>
      let url := createObjectURL store in
      let image := {| img_id := randomUUID calls;
                      img_name := file_name file;
                      img_size := file_size file;
                      img_type := file_type file;
                      img_url := url |} in
      ingest_each rest (nextImages ++ [image]) ({[ url ]} ∪ store) (S calls)
  end.

(** [addFiles(files: FileList | null)] *)
Definition addFiles (st : State) (files : option (list File)) : State :=
  match files with
  | None | Some [] => st
  | Some fs =>
      let '(nextImages, store, calls) :=
        ingest_each fs [] (blobStore st) (uuidCalls st) in
      {| uploadedImages := uploadedImages st ++ nextImages;
         selectedId :=
           match nextImages with
           | first :: _ =>
               if falsy (selectedId st) then Some (img_id first)
               else selectedId st
           | [] => selectedId st
           end;
         canvas := canvas st;
         animationSeed := animationSeed st;
         effectSettings := effectSettings st;
         blobStore := store;
         uuidCalls := calls;
         downloads := downloads st;
         pendingBlobs := pendingBlobs st |}
  end.

(** [on:click={() => (selectedId = image.id)}] on the [i]-th file card. *)
Definition clickCard (st : State) (i : nat) : State :=
  match uploadedImages st !! i with
  | Some image =>
      {| uploadedImages := uploadedImages st;
         selectedId := Some (img_id image);
         canvas := canvas st;
         animationSeed := animationSeed st;
         effectSettings := effectSettings st;
         blobStore := blobStore st;
         uuidCalls := uuidCalls st;
         downloads := downloads st;
         pendingBlobs := pendingBlobs st |}
  | None => st
  end.

(** [removeAll] *)
Definition removeAll (st : State) : State :=
  {| uploadedImages := [];
     selectedId := None;
     canvas :=
       match canvas st with
       | Some _ => Some {| canvas_width := 0; canvas_height := 0 |}
       | None => None
       end;
     animationSeed := animationSeed st;
     effectSettings := effectSettings st;
     blobStore := revoke_all (uploadedImages st) (blobStore st);
     uuidCalls := uuidCalls st;
     downloads := downloads st;
     pendingBlobs := pendingBlobs st |}.

(** [refreshDummyEffect]: [animationSeed += 1]; the redraw it asks for
    ends in [img_onload]. *)
Definition refreshDummyEffect (st : State) : State :=
  {| uploadedImages := uploadedImages st;
     selectedId := selectedId st;
     canvas := canvas st;
     animationSeed := animationSeed st ⊕ 1;
     effectSettings := effectSettings st;
     blobStore := blobStore st;
     uuidCalls := uuidCalls st;
     downloads := downloads st;
     pendingBlobs := pendingBlobs st |}.

(** The guard of [drawPreview]: the URL whose decoding starts, if any (a
    canvas that has no other context always yields its 2D context). *)
Definition drawPreview (st : State) : option string :=
  match canvas st, selectedImage st with
  | Some _, Some current => Some (img_url current)
  | _, _ => None
  end.

(** [img.onload] of [drawPreview], for a decoded image of natural size
    [imgWidth] x [imgHeight]: the canvas is resized. *)
Definition img_onload (st : State) (imgWidth imgHeight : Z) : State :=
  {| uploadedImages := uploadedImages st;
     selectedId := selectedId st;
     canvas :=
       match canvas st with
       | Some _ =>
           Some {| canvas_width := Preview.width imgWidth;
                   canvas_height := Preview.height imgWidth imgHeight |}
       | None => None
       end;
     animationSeed := animationSeed st;
     effectSettings := effectSettings st;
     blobStore := blobStore st;
     uuidCalls := uuidCalls st;
     downloads := downloads st;
     pendingBlobs := pendingBlobs st |}.

(** [downloadPreview] up to its [await]: [true] when [canvas.toBlob] has
    been called and the rest of the function waits for its callback. *)
Definition downloadPreview_guard (st : State) : bool :=
  match canvas st, selectedImage st with
  | Some _, Some _ => true
  | _, _ => false
  end.

Definition downloadPreview_begin (st : State) : State :=
  if downloadPreview_guard st then
    {| uploadedImages := uploadedImages st;
       selectedId := selectedId st;
       canvas := canvas st;
       animationSeed := animationSeed st;
       effectSettings := effectSettings st;
       blobStore := blobStore st;
       uuidCalls := uuidCalls st;
       downloads := downloads st;
       pendingBlobs := S (pendingBlobs st) |}
  else st.

(** [`${selectedImage()?.name ?? 'preview'}.png`] *)
Definition preview_name (st : State) : string :=
  (match selectedImage st with
   | Some current => img_name current
   | None => "preview"
   end ++ ".png")%string.

(** [downloadPreview] after its [await], run with the value [toBlob]
    resolved to ([None] is [null]). *)
Definition downloadPreview_resume (st : State) (blob : option Blob)
  : State :=
  match blob with
  | None => st
  | Some _ =>
      let url := createObjectURL (blobStore st) in
      let store := {[ url ]} ∪ blobStore st in
      let link := {| href := url; download := preview_name st |} in
      {| uploadedImages := uploadedImages st;
         selectedId := selectedId st;
         canvas := canvas st;
         animationSeed := animationSeed st;
         effectSettings := effectSettings st;
         blobStore := store ∖ {[ url ]};
         uuidCalls := uuidCalls st;
         downloads := downloads st ++ [link];
         pendingBlobs := pendingBlobs st |}
  end.

(** [downloadOriginal] *)
Definition downloadOriginal (st : State) : State :=
  match selectedImage st with
  | None => st
  | Some current =>
      {| uploadedImages := uploadedImages st;
         selectedId := selectedId st;
         canvas := canvas st;
         animationSeed := animationSeed st;
         effectSettings := effectSettings st;
         blobStore := blobStore st;
         uuidCalls := uuidCalls st;
         downloads := downloads st
           ++ [ {| href := img_url current; download := img_name current |} ];
         pendingBlobs := pendingBlobs st |}
  end.

(** [bind:value] of the three controls. *)
Definition setSettings (st : State) (s : Effect.EffectSettings) : State :=
  {| uploadedImages := uploadedImages st;
     selectedId := selectedId st;
     canvas := canvas st;
     animationSeed := animationSeed st;
     effectSettings := s;
     blobStore := blobStore st;
     uuidCalls := uuidCalls st;
     downloads := downloads st;
     pendingBlobs := pendingBlobs st |}.

(** What can happen to the mounted page: [handleFileInput] and
    [handleDrop] both end in [addFiles] ([Ingest]), a file card is clicked,
    one of the four buttons is pressed, a decode or a [toBlob] completes, a
    control changes a setting.  [onDestroy] ends the page and is not an
    event of it. *)
Inductive Event :=
| Ingest (files : option (list File))
| ClickCard (i : nat)
| RemoveAll
| Refresh
| ImageLoaded (imgWidth imgHeight : Z)
| ExportComposite
| BlobReady (blob : option Blob)
| ExportOriginal
| SetIntensity (v : R)
| SetGrain (v : R)
| SetTint (v : string).

Definition handle (st : State) (ev : Event) : State :=
  match ev with
  | Ingest files => addFiles st files
  | ClickCard i => clickCard st i
  | RemoveAll => removeAll st
  | Refresh => refreshDummyEffect st
  | ImageLoaded w h => img_onload st w h
  | ExportComposite => downloadPreview_begin st
  | BlobReady blob =>
      match pendingBlobs st with
      | O => st
      | S k =>
          downloadPreview_resume
            {| uploadedImages := uploadedImages st;
               selectedId := selectedId st;
               canvas := canvas st;
               animationSeed := animationSeed st;
               effectSettings := effectSettings st;
               blobStore := blobStore st;
               uuidCalls := uuidCalls st;
               downloads := downloads st;
               pendingBlobs := k |}
            blob
      end
  | ExportOriginal => downloadOriginal st
  | SetIntensity v =>
      setSettings st
        {| Effect.intensity := v;
           Effect.grain := Effect.grain (effectSettings st);
           Effect.tint := Effect.tint (effectSettings st) |}
  | SetGrain v =>
      setSettings st
        {| Effect.intensity := Effect.intensity (effectSettings st);
           Effect.grain := v;
           Effect.tint := Effect.tint (effectSettings st) |}
  | SetTint v =>
      setSettings st
        {| Effect.intensity := Effect.intensity (effectSettings st);
           Effect.grain := Effect.grain (effectSettings st);
           Effect.tint := v |}
  end.

(** The page once mounted: the declarations of the script, a default
    300 x 150 canvas, an empty blob URL store. *)
Definition mounted : State :=
  {| uploadedImages := [];
     selectedId := None;
     canvas := Some {| canvas_width := 300; canvas_height := 150 |};
     animationSeed := 0;
     effectSettings := {| Effect.intensity := lit 0.55;
                          Effect.grain := lit 0.25;
                          Effect.tint := "#7c3aed" |};
     blobStore := ∅;
     uuidCalls := 0;
     downloads := [];
     pendingBlobs := 0 |}.

Definition run (st : State) (evs : list Event) : State :=
  fold_left handle evs st.

(** States the page can be in: every sequence of events is allowed, also
    where the page would have the control disabled or hidden. *)
Definition reachable (st : State) : Prop :=
  exists evs : list Event, st = run mounted evs.

Definition is_clear (ev : Event) : bool :=
  match ev with
  | RemoveAll => true
  | _ => false
  end.

(** The events that follow the last clear-all of a sequence (all of them
    when there is none). *)
Fixpoint after_last_clear (evs : list Event) : list Event :=
  match evs with
  | [] => []
  | ev :: rest =>
      if existsb is_clear rest then after_last_clear rest
      else if is_clear ev then rest
      else ev :: rest
  end.

(** Total number of files passed to the ingestion calls of a sequence. *)
Fixpoint files_passed (evs : list Event) : nat :=
  match evs with
  | [] => 0
  | Ingest (Some fs) :: rest => length fs + files_passed rest
  | _ :: rest => files_passed rest
  end.
End Handlers.

Definition urls (images : list UploadedImage) : list string :=
  img_url <$> images.

(** What holds of every state the page can be in: the canvas is bound, the
    live object URLs are those of the records, all different, the ids are
    UUIDs, and the selection is null exactly when no image is registered. *)
Record Inv (st : State) : Prop := {
  inv_canvas : is_Some (canvas st);
  inv_store : blobStore st = list_to_set (urls (uploadedImages st));
  inv_nodup : NoDup (urls (uploadedImages st));
  inv_ids : Forall (fun image => String.length (img_id image) = 36%nat)
                   (uploadedImages st);
  inv_none : uploadedImages st = [] -> selectedId st = None;
  inv_some : uploadedImages st ≠ [] ->
             exists image, image ∈ uploadedImages st
                           /\ selectedId st = Some (img_id image)
}.

End Page.

Import Page.

(** ** Instances: exact arithmetic, the real sine and cosine, a browser that
    numbers its UUIDs *)

Lemma exact_rnd_err (x : R) :
  (1e-300 <= Rabs x <= 1e300)%R -> (Rabs (x - x) <= eps64 * Rabs x)%R.
Proof.
  intros Hx. replace (x - x)%R with 0%R by ring. rewrite Rabs_R0.
  unfold eps64. nra.
Qed.

Definition exact_rounding : Binary64 :=
  {| rnd := fun x : R => x;
     rnd_mono := fun _ _ Hxy => Hxy;
     rnd_int := fun _ _ => eq_refl;
     rnd_idem := fun _ => eq_refl;
     rnd_err := exact_rnd_err |}.

Lemma real_acc (f : R -> R) (x : R) : (Rabs (f x - f x) <= 1e-9)%R.
Proof. replace (f x - f x)%R with 0%R by ring. rewrite Rabs_R0. lra. Qed.

Definition real_builtins : Builtins :=
  {| Math_sin := sin;
     Math_cos := cos;
     Math_sin_acc := real_acc sin;
     Math_cos_acc := real_acc cos;
     Number_toString := fun _ : R => "0.165"%string |}.

(** [k] lowercase hexadecimal digits of [n], least significant last. *)
Fixpoint hex_fixed (k : nat) (n : N) (acc : string) : string :=
  match k with
  | O => acc
  | S k' =>
      let d := (n mod 16)%N in
      let c := ascii_of_N (if (d <? 10)%N then 48 + d else 87 + d) in
      hex_fixed k' (n / 16)%N (String c acc)
  end.

Lemma hex_fixed_length (k : nat) :
  forall (n : N) (acc : string),
    String.length (hex_fixed k n acc) = (k + String.length acc)%nat.
Proof.
  induction k as [|k IH]; intros n acc; simpl.
  - reflexivity.
  - rewrite IH. simpl. lia.
Qed.

Definition counter_uuid (n : nat) : string :=
  ("00000000-0000-4000-8000-" ++ hex_fixed 12 (N.of_nat n) EmptyString)%string.

Lemma counter_uuid_length (n : nat) : String.length (counter_uuid n) = 36%nat.
Proof.
  unfold counter_uuid. cbv [String.append]. cbn [String.length].
  rewrite hex_fixed_length. reflexivity.
Qed.

Definition counter_browser : Page.Browser :=
  {| Page.randomUUID := counter_uuid;
     Page.randomUUID_length := counter_uuid_length;
     Page.createObjectURL := fun store : gset string => fresh store;
     Page.createObjectURL_fresh := fun store : gset string => is_fresh store |}.

(** Inputs at which the theorems are instantiated. *)

Definition cat_png : File :=
  {| file_name := "cat.png"; file_size := 2048; file_type := "image/png" |}.

Definition png_blob : Blob :=
  {| blob_type := "image/png"; blob_size := 4096 |}.

(** The mounted page after [cat.png] has been picked. *)
Definition one_image : State :=
  @run exact_rounding counter_browser (@mounted exact_rounding)
       [Ingest (Some [cat_png])].

Definition default_settings : Effect.EffectSettings :=
  {| Effect.intensity := 0.55;
     Effect.grain := 0.25;
     Effect.tint := "#7c3aed" |}.

(** ** [formatSize] *)

Module Format.

(** [k] decimal digits of [m], least significant last. *)
Fixpoint digits_fixed (k : nat) (m : Z) (acc : string) : string :=
  match k with
  | O => acc
  | S k' =>
      digits_fixed k' (m / 10)
        (String (ascii_of_N (Z.to_N (48 + m mod 10))) acc)
  end.

(** [x.toFixed(f)] of a finite number below [1e21] in magnitude: with [n]
    the integer nearest to [|x| * 10^f], the larger one on a tie, the text
    is the sign, the digits of [n] before its last [f] ones (at least one
    digit), a point and those last [f] digits. *)
Definition toFixed_abs (x : R) (f : nat) : string :=
  let p := (10 ^ Z.of_nat f)%Z in
  let n := Zfloor (x * IZR p + / 2) in
  (Color.int_toString (n / p)
   ++ match f with
      | O => EmptyString
      | S _ => String "." (digits_fixed f (n mod p) EmptyString)
      end)%string.

Definition toFixed (x : R) (f : nat) : string :=
  if Rlt_dec x 0 then String "-" (toFixed_abs (- x) f) else toFixed_abs x f.

Section FormatSize.
Context {B64 : Binary64}.

(** [formatSize(bytes)], [bytes] being the integral [size] of a file. *)
Definition formatSize (bytes : Z) : string :=
  if (bytes <? 1024)%Z then (Color.int_toString bytes ++ " B")%string
  else if (bytes <? 1024 * 1024)%Z
       then (toFixed (IZR bytes ⊘ 1024) 1 ++ " KB")%string
       else (toFixed (IZR bytes ⊘ IZR (1024 * 1024)) 2 ++ " MB")%string.
End FormatSize.

End Format.

(** ** [applyDummyEffect] as a whole: the stripe layer (lines 107-117)
    between the tint gradient and the sparkles *)

Module Render.

(** Calls on the 2D context: those of the two layers above and the ones the
    stripe loop and the end of the function add. *)
Inductive Call :=
| Op (op : Effect.CanvasOp)
| Restore
| Translate (x y : R)
| Rotate (angle : R).

Section Stripes.
Context {B64 : Binary64} {BI : Builtins}.
Variable effectSettings : Effect.EffectSettings.

(** [Math.max(16, 38 - Math.round(effectSettings.intensity * 18))] *)
Definition stripeGap : Z :=
  Z.max 16 (38 - Math_round (Effect.intensity effectSettings ⊗ 18)).

(** The three assignments before the loop. *)
Definition stripe_setup : list Call :=
  [ Op (Effect.SetGlobalAlpha
          (lit 0.14 ⊕ Effect.intensity effectSettings ⊗ lit 0.2));
    Op (Effect.SetGlobalCompositeOperation "overlay");
    Op (Effect.SetFillStyle
          (Color.withAlpha "#ffffff"
             (lit 0.08 ⊕ Effect.grain effectSettings ⊗ lit 0.12))) ].

(** One stripe: [save], [translate(x, 0)], [rotate(-Math.PI / 4)],
    [fillRect(0, 0, height * 2, stripeGap / 2.2)], [restore]. *)
Definition stripe_body (height x : R) : list Call :=
  [ Op Effect.Save;
    Translate x 0;
    Rotate ((- lit PI) ⊘ 4);
    Op (Effect.FillRect 0 0 (height ⊗ 2) (IZR stripeGap ⊘ lit 2.2));
    Restore ].

(** [for (let x = -height; x < width + height; x += stripeGap)], run for at
    most [fuel] tests of the condition; [None] when they do not suffice. *)
Fixpoint stripe_loop (width height : R) (fuel : nat) (x : R)
  : option (list Call) :=
  match fuel with
  | O => None
  | S k =>
      if Rlt_dec x (width ⊕ height)
      then match stripe_loop width height k (x ⊕ IZR stripeGap) with
           | Some rest => Some (stripe_body height x ++ rest)
           | None => None
           end
      else Some []
  end.

Definition stripeLayer (width height : R) (fuel : nat)
  : option (list Call) :=
  match stripe_loop width height fuel (- height) with
  | Some stripes => Some (stripe_setup ++ stripes)
  | None => None
  end.

(** [applyDummyEffect(ctx, width, height)] with the seed read from
    [animationSeed]. *)
Definition applyDummyEffect (animationSeed width height : R) (fuel : nat)
  : option (list Call) :=
  match stripeLayer width height fuel with
  | Some stripes =>
      Some ((Op <$> Effect.tintLayer effectSettings width height)
            ++ stripes
            ++ (Op <$> Effect.sparkleLayer effectSettings animationSeed
                         width height)
            ++ [ Op (Effect.SetGlobalCompositeOperation "source-over");
                 Restore ])
  | None => None
  end.
End Stripes.

(** The depth of the state stack after a run of calls started at [depth];
    [None] when a [restore] finds the stack of the run empty. *)
Fixpoint stack_depth (calls : list Call) (depth : nat) : option nat :=
  match calls with
  | [] => Some depth
  | Op Effect.Save :: rest => stack_depth rest (S depth)
  | Restore :: rest =>
      match depth with
      | O => None
      | S d => stack_depth rest d
      end
  | _ :: rest => stack_depth rest depth
  end.

(** The values assigned to [globalAlpha] by a run of calls. *)
Fixpoint global_alphas (calls : list Call) : list R :=
  match calls with
  | [] => []
  | Op (Effect.SetGlobalAlpha a) :: rest => a :: global_alphas rest
  | _ :: rest => global_alphas rest
  end.

(** The [x] of the [translate] calls of a run. *)
Fixpoint translations (calls : list Call) : list R :=
  match calls with
  | [] => []
  | Translate x _ :: rest => x :: translations rest
  | _ :: rest => translations rest
  end.

End Render.

(** ** [onDestroy] *)

(** [uploadedImages.forEach((image) => URL.revokeObjectURL(image.url))]
    when the component is torn down: the records stay as they are. *)
Definition onDestroy (st : State) : State :=
  {| uploadedImages := uploadedImages st;
     selectedId := selectedId st;
     canvas := canvas st;
     animationSeed := animationSeed st;
     effectSettings := effectSettings st;
     blobStore := revoke_all (uploadedImages st) (blobStore st);
     uuidCalls := uuidCalls st;
     downloads := downloads st;
     pendingBlobs := pendingBlobs st |}.

(** Number of presses of the refresh button in a sequence of events. *)
Fixpoint refreshes (evs : list Event) : Z :=
  match evs with
  | [] => 0
  | Refresh :: rest => 1 + refreshes rest
  | _ :: rest => refreshes rest
  end.

(** The decoded images of a sequence have widths a number holds exactly:
    at most [2^53] in magnitude, which every value of [img.width], an
    unsigned 32-bit integer, is.  Nothing is asked of the heights. *)
Definition loads_exact (evs : list Event) : Prop :=
  Forall (fun ev =>
            match ev with
            | ImageLoaded w _ => (Z.abs w <= 2 ^ 53)%Z
            | _ => True
            end) evs.

(** The canvas is bound, at most 1024 wide and of no negative size. *)
Definition canvas_bounded (st : State) : Prop :=
  exists c : Canvas,
    canvas st = Some c
    /\ (0 <= canvas_width c <= 1024)%Z /\ (0 <= canvas_height c)%Z.

(** * Properties *)

(** ** Rounding *)

Section RoundingFacts.
Context {B64 : Binary64}.
Local Open Scope R_scope.

Lemma rnd_0 : rnd 0 = 0.
Proof. apply (rnd_int 0). lia. Qed.

Lemma rnd_1 : rnd 1 = 1.
Proof. apply (rnd_int 1). lia. Qed.

Lemma Rabs_le_both (a b : R) : Rabs a <= b -> - b <= a <= b.
Proof. unfold Rabs. destruct (Rcase_abs a); lra. Qed.

Lemma eps64_bounds : 0 < eps64 < 1e-15.
Proof. unfold eps64. lra. Qed.

(** Relative error of one rounding, for a positive argument in range. *)
Lemma rnd_rel (x : R) :
  1e-300 <= x <= 1e300 ->
  x * (1 - eps64) <= rnd x <= x * (1 + eps64).
Proof.
  intros Hx.
  assert (Habs : Rabs x = x) by (apply Rabs_pos_eq; lra).
  pose proof (rnd_err x) as He. rewrite Habs in He.
  specialize (He Hx).
  apply Rabs_le_both in He. lra.
Qed.

Lemma Math_round_IZR (n : Z) : Math_round (IZR n) = n.
Proof. unfold Math_round. apply Zfloor_eq. lra. Qed.

Lemma Math_round_near (n : Z) (x : R) :
  IZR n - / 2 <= x < IZR n + / 2 -> Math_round x = n.
Proof. intros Hx. unfold Math_round. apply Zfloor_eq. lra. Qed.
End RoundingFacts.

(** ** Scaling *)

Section ScalingFacts.
Context {B64 : Binary64}.
Local Open Scope R_scope.

(** Away from 0 the scale is the minimum the source writes. *)
Lemma scale_nonzero (w : Z) :
  w <> 0%Z -> Preview.scale w = Math_min 1 (IZR 1024 ⊘ IZR w).
Proof.
  intros Hw. unfold Preview.scale, Preview.maxWidth.
  destruct (Z.eqb_spec w 0); [contradiction | reflexivity].
Qed.

Lemma scale_small (w : Z) :
  (1 <= w <= 1024)%Z -> Preview.scale w = 1.
Proof.
  intros Hw. rewrite scale_nonzero by lia.
  unfold Math_min, fdiv. apply Rmin_left.
  rewrite <- rnd_1 at 1. apply rnd_mono.
  assert (0 < IZR w) by (apply IZR_lt; lia).
  assert (IZR w <= 1024) by (apply IZR_le; lia).
  apply Rmult_le_reg_r with (IZR w); [assumption|].
  unfold Rdiv. rewrite Rmult_assoc, Rinv_l by lra. lra.
Qed.

(** Beyond 1024 the quotient is rounded once; it stays within one unit
    roundoff of [1024 / w]. *)
Lemma scale_large (w : Z) :
  (1024 < w <= 2 ^ 53)%Z ->
  let q := 1024 / IZR w in
  q * (1 - eps64) <= Preview.scale w <= q * (1 + eps64)
  /\ Preview.scale w <= 1.
Proof.
  intros Hw q.
  assert (Hlo : 1024 < IZR w) by (apply IZR_lt; lia).
  assert (Hhi : IZR w <= 9007199254740992) by (apply IZR_le; lia).
  assert (Hqw : q * IZR w = 1024) by (unfold q; field; lra).
  assert (Hq1 : q < 1).
  { apply Rmult_lt_reg_r with (IZR w); lra. }
  assert (Hq0 : 1e-13 <= q).
  { apply Rmult_le_reg_r with (IZR w); lra. }
  assert (Hr : rnd q <= 1).
  { rewrite <- rnd_1. apply rnd_mono. lra. }
  rewrite scale_nonzero by lia. unfold Math_min, fdiv. fold q.
  rewrite Rmin_right by exact Hr.
  split; [apply rnd_rel; lra | exact Hr].
Qed.

Lemma width_small (w : Z) : (1 <= w <= 1024)%Z -> Preview.width w = w.
Proof.
  intros Hw. unfold Preview.width, fmul.
  rewrite scale_small by assumption. rewrite Rmult_1_r.
  rewrite rnd_int by lia. rewrite Math_round_IZR. lia.
Qed.

Lemma height_small (w h : Z) :
  (1 <= w <= 1024)%Z -> (1 <= h <= 2 ^ 53)%Z -> Preview.height w h = h.
Proof.
  intros Hw Hh. unfold Preview.height, fmul.
  rewrite scale_small by assumption. rewrite Rmult_1_r.
  rewrite rnd_int by lia. rewrite Math_round_IZR. lia.
Qed.

Lemma width_large (w : Z) :
  (1024 < w <= 2 ^ 53)%Z -> Preview.width w = 1024%Z.
Proof.
  intros Hw. destruct (scale_large w Hw) as [[Hl Hu] _].
  assert (Hlo : 1024 < IZR w) by (apply IZR_lt; lia).
  pose proof eps64_bounds as He.
  set (s := Preview.scale w) in *.
  assert (Hp : 1024 * (1 - eps64) <= IZR w * s <= 1024 * (1 + eps64)).
  { replace (1024 * (1 - eps64)) with (IZR w * (1024 / IZR w * (1 - eps64)))
      by (field; lra).
    replace (1024 * (1 + eps64)) with (IZR w * (1024 / IZR w * (1 + eps64)))
      by (field; lra).
    split; apply Rmult_le_compat_l; lra. }
  assert (Hr : 1023.9 <= rnd (IZR w * s) <= 1024.1).
  { destruct (rnd_rel (IZR w * s)) as [Ha Hb]; [lra|]. nra. }
  unfold Preview.width, fmul. fold s.
  rewrite (Math_round_near 1024) by lra. lia.
Qed.
End ScalingFacts.

(** ** The registry, the selection and the blob URL store *)

Section RegistryFacts.
Context {B64 : Binary64} {BI : Builtins} {BR : Browser}.

Lemma falsy_uuid (s : string) :
  String.length s = 36%nat -> falsy (Some s) = false.
Proof. destruct s; [discriminate | reflexivity]. Qed.

Lemma revoke_all_spec (images : list UploadedImage) (store : gset string) :
  revoke_all images store = store ∖ list_to_set (urls images).
Proof.
  revert store. induction images as [|image rest IH]; intros store; simpl.
  - set_solver.
  - rewrite IH. set_solver.
Qed.

(** The loop of [addFiles] appends one record per file, each with a URL
    that was not live and differs from the others. *)
Lemma ingest_each_spec (files : list File) :
  forall (acc : list UploadedImage) (store : gset string) (calls : nat),
  exists new : list UploadedImage,
    ingest_each files acc store calls
    = (acc ++ new, list_to_set (urls new) ∪ store,
       (calls + length files)%nat)
    /\ length new = length files
    /\ NoDup (urls new)
    /\ (forall u, u ∈ urls new -> u ∉ store)
    /\ Forall (fun image => String.length (img_id image) = 36%nat) new
    /\ img_name <$> new = file_name <$> files
    /\ img_id <$> new = randomUUID <$> seq calls (length files).
Proof.
  induction files as [|file rest IH]; intros acc store calls.
  - exists []. simpl. rewrite app_nil_r, Nat.add_0_r.
    repeat split; try constructor; try set_solver.
    f_equal. f_equal. set_solver.
  - simpl.
    set (url := createObjectURL store).
    set (image := {| img_id := randomUUID calls;
                     img_name := file_name file;
                     img_size := file_size file;
                     img_type := file_type file;
                     img_url := url |}).
    destruct (IH (acc ++ [image]) ({[url]} ∪ store) (S calls))
      as (new & Heq & Hlen & Hnd & Hfresh & Hids & Hnames & Huuids).
    exists (image :: new). rewrite Heq.
    assert (Hurl : url ∉ store) by apply createObjectURL_fresh.
    repeat split.
    + f_equal; [f_equal|lia].
      * now rewrite <- app_assoc.
      * unfold urls; simpl. set_solver.
    + simpl. now rewrite Hlen.
    + unfold urls in *; simpl. constructor; [|assumption].
      intros Hin. apply Hfresh in Hin. set_solver.
    + intros u Hu. unfold urls in *; simpl in Hu.
      apply elem_of_cons in Hu as [->|Hu]; [assumption|].
      apply Hfresh in Hu. set_solver.
    + constructor; [apply randomUUID_length | assumption].
    + rewrite !fmap_cons. f_equal. exact Hnames.
    + cbn [length seq]. rewrite !fmap_cons. f_equal. exact Huuids.
Qed.

Lemma Inv_mounted : Inv mounted.
Proof.
  split; simpl;
    [by eexists | set_solver | constructor | constructor | done | done].
Qed.

Lemma Inv_addFiles (st : State) (files : option (list File)) :
  Inv st -> Inv (addFiles st files).
Proof.
  intros HI. destruct files as [[|file rest]|]; try assumption.
  unfold addFiles.
  destruct (ingest_each_spec (file :: rest) [] (blobStore st) (uuidCalls st))
    as (new & Heq & Hlen & Hnd & Hfresh & Hids & _ & _).
  rewrite Heq. simpl app.
  destruct HI as [Hc Hs Hn Hi Hnone Hsome].
  destruct new as [|first more]; [discriminate|].
  constructor; simpl.
  - assumption.
  - rewrite Hs. unfold urls. rewrite fmap_app, list_to_set_app_L.
    set_solver.
  - unfold urls. rewrite fmap_app. apply NoDup_app. repeat split; try done.
    intros u Hu Hu'. apply (Hfresh u Hu'). rewrite Hs. set_solver.
  - apply Forall_app. split; assumption.
  - intros Hnil. apply app_eq_nil in Hnil as [_ Hnil]. discriminate.
  - intros _. destruct (uploadedImages st) as [|old olds] eqn:Hold.
    + rewrite Hnone by reflexivity. simpl.
      exists first. split; [set_solver|reflexivity].
    + destruct Hsome as (image & Hin & Hsel); [done|].
      rewrite Hsel. rewrite falsy_uuid.
      * exists image. split; [|reflexivity]. set_solver.
      * rewrite Forall_forall in Hi. now apply Hi.
Qed.

Lemma Inv_clickCard (st : State) (i : nat) : Inv st -> Inv (clickCard st i).
Proof.
  intros HI. unfold clickCard.
  destruct (uploadedImages st !! i) as [image|] eqn:Hi; [|assumption].
  destruct HI as [Hc Hs Hn Hids Hnone Hsome].
  constructor; simpl; try assumption.
  - intros Hnil. rewrite Hnil in Hi. discriminate.
  - intros _. exists image. split; [|reflexivity].
    apply list_elem_of_lookup. by exists i.
Qed.

Lemma Inv_removeAll (st : State) : Inv st -> Inv (removeAll st).
Proof.
  intros [Hc Hs Hn Hids Hnone Hsome].
  constructor; simpl; try done.
  - destruct Hc as [c ->]. by eexists.
  - rewrite revoke_all_spec, Hs. set_solver.
  - constructor.
Qed.

Lemma Inv_resume (st : State) (blob : option Blob) :
  Inv st -> Inv (downloadPreview_resume st blob).
Proof.
  intros HI. destruct blob as [b|]; [|assumption].
  destruct HI as [Hc Hs Hn Hids Hnone Hsome].
  constructor; simpl; try assumption.
  pose proof (createObjectURL_fresh (blobStore st)) as Hf.
  rewrite <- Hs. set_solver.
Qed.

Lemma Inv_handle (st : State) (ev : Event) : Inv st -> Inv (handle st ev).
Proof.
  intros HI. destruct ev; simpl.
  - now apply Inv_addFiles.
  - now apply Inv_clickCard.
  - now apply Inv_removeAll.
  - destruct HI; constructor; assumption.
  - destruct HI as [Hc Hs Hn Hids Hnone Hsome].
    constructor; simpl; try assumption.
    destruct Hc as [c ->]. by eexists.
  - unfold downloadPreview_begin.
    destruct (downloadPreview_guard st); [|assumption].
    destruct HI; constructor; assumption.
  - destruct (pendingBlobs st); [assumption|].
    apply Inv_resume. destruct HI; constructor; assumption.
  - unfold downloadOriginal.
    destruct (selectedImage st); [|assumption].
    destruct HI; constructor; assumption.
  - destruct HI; constructor; assumption.
  - destruct HI; constructor; assumption.
  - destruct HI; constructor; assumption.
Qed.

Lemma Inv_run (evs : list Event) (st : State) : Inv st -> Inv (run st evs).
Proof.
  revert st. induction evs as [|ev evs IH]; intros st HI; simpl.
  - assumption.
  - apply IH. now apply Inv_handle.
Qed.

Lemma reachable_Inv (st : State) : reachable st -> Inv st.
Proof. intros [evs ->]. apply Inv_run, Inv_mounted. Qed.
End RegistryFacts.

(** ** The sparkle hash: remainder and rounding *)

Section HashFacts.
Context {B64 : Binary64} {BI : Builtins}.
Local Open Scope R_scope.

(** The remainder of a non-negative number by a positive one. *)
Lemma js_rem_range (n d : R) : 0 <= n -> 0 < d -> 0 <= n %% d < d.
Proof.
  intros Hn Hd. unfold js_rem, Ztrunc.
  assert (Hq : 0 <= n / d).
  { unfold Rdiv. apply Rmult_le_pos; [lra|].
    left. apply Rinv_0_lt_compat. lra. }
  destruct (Rle_dec 0 (n / d)) as [_|Hneg]; [|contradiction].
  pose proof (Zfloor_bound (n / d)) as [Hlo Hhi].
  assert (Hnd : n / d * d = n) by (field; lra).
  set (k := IZR (Zfloor (n / d))) in *. split; nra.
Qed.

(** [is_mod] names one number. *)
Lemma is_mod_unique (v d r r' : R) :
  HashSpec.is_mod v d r -> HashSpec.is_mod v d r' -> r = r'.
Proof.
  intros [Hr [k Hk]] [Hr' [k' Hk']].
  assert (Hd : 0 < d) by lra.
  assert (Hkk : IZR (k - k') * d = r' - r) by (rewrite minus_IZR; lra).
  assert (Hz : (k - k' = 0)%Z).
  { assert (Hlt : (-1 < k - k' < 1)%Z); [|lia].
    split; apply lt_IZR; nra. }
  rewrite Hz in Hkk. lra.
Qed.

Lemma js_rem_is_mod (n d : R) :
  0 <= n -> 0 < d -> HashSpec.is_mod n d (n %% d).
Proof.
  intros Hn Hd. split; [now apply js_rem_range|].
  exists (Ztrunc (n / d)). unfold js_rem. lra.
Qed.

Lemma sin_lipschitz (a b : R) : Rabs (sin b - sin a) <= Rabs (b - a).
Proof.
  destruct (MVT_abs sin cos a b) as (c & Hc & _).
  { intros c _. apply derivable_pt_lim_sin. }
  rewrite Hc. pose proof (COS_bound c).
  assert (Rabs (cos c) <= 1) by (apply Rabs_le; lra).
  pose proof (Rabs_pos (b - a)). pose proof (Rabs_pos (cos c)). nra.
Qed.

Lemma cos_lipschitz (a b : R) : Rabs (cos b - cos a) <= Rabs (b - a).
Proof.
  destruct (MVT_abs cos (fun x => - sin x) a b) as (c & Hc & _).
  { intros c _. apply derivable_pt_lim_cos. }
  rewrite Hc. pose proof (SIN_bound c).
  assert (Rabs (- sin c) <= 1) by (apply Rabs_le; lra).
  pose proof (Rabs_pos (b - a)). pose proof (Rabs_pos (- sin c)). nra.
Qed.

Lemma eps64_tight : 0 < eps64 < 1.12e-16.
Proof. unfold eps64. lra. Qed.

(** One rounding of a number that is 0 or in range. *)
Lemma rnd_rel0 (x : R) :
  x = 0 \/ 1e-300 <= x <= 1e300 ->
  x * (1 - eps64) <= rnd x <= x * (1 + eps64).
Proof.
  intros [-> | Hx]; [rewrite rnd_0; lra | now apply rnd_rel].
Qed.

(** One rounding of any number in range, the smallest ones included. *)
Lemma rnd_abs_err (x : R) :
  Rabs x <= 1e300 -> Rabs (rnd x - x) <= eps64 * Rabs x + 3e-300.
Proof.
  intros Hx. pose proof eps64_bounds as He. pose proof (Rabs_pos x) as Hxp.
  pose proof (rnd_err x) as Hbig.
  pose proof (rnd_rel 1e-300) as Hup.
  pose proof (rnd_err (Ropp 1e-300)) as Hlo. rewrite Rabs_Ropp in Hlo.
  pose proof (rnd_mono x 1e-300) as Hm1.
  pose proof (rnd_mono (Ropp 1e-300) x) as Hm2.
  replace 3e-300 with (3 * 1e-300) by lra.
  set (u := 1e-300) in *. set (big := 1e300) in *.
  assert (Hu : 0 < u < 1) by (unfold u; lra).
  assert (Hub : u <= big) by (unfold u, big; lra).
  clearbody u big. rewrite (Rabs_pos_eq u) in Hlo by lra.
  destruct (Rle_dec u (Rabs x)) as [Hge | Hsmall].
  - specialize (Hbig (conj Hge Hx)). lra.
  - apply Rnot_le_lt in Hsmall.
    pose proof (Rabs_le_both x u ltac:(lra)) as Hx'.
    specialize (Hup ltac:(lra)). specialize (Hlo ltac:(lra)).
    apply Rabs_le_both in Hlo.
    specialize (Hm1 ltac:(lra)). specialize (Hm2 ltac:(lra)).
    assert (Hue : 0 <= u * eps64 <= u).
    { split; [apply Rmult_le_pos; lra|].
      apply Rle_trans with (u * 1); [apply Rmult_le_compat_l; lra | lra]. }
    assert (Hex : 0 <= eps64 * Rabs x) by (apply Rmult_le_pos; lra).
    apply Rle_trans with (3 * u); [apply Rabs_le; lra | lra].
Qed.

(** A bound by a factor, scaled by a non-negative number. *)
Lemma scaled_between (k x c e : R) :
  0 <= k -> c * (1 - e) <= x <= c * (1 + e) ->
  k * c * (1 - e) <= k * x <= k * c * (1 + e).
Proof.
  intros Hk [Hl Hu].
  pose proof (Rmult_le_compat_l k _ _ Hk Hl).
  pose proof (Rmult_le_compat_l k _ _ Hk Hu). lra.
Qed.

(** One more rounding on top of a relative error of [k] unit roundoffs. *)
Lemma rel_step (x v r e k : R) :
  0 <= x -> 0 < e < 1e-3 -> 0 <= k <= 10 ->
  x * (1 - k * e) <= v <= x * (1 + k * e) ->
  v * (1 - e) <= r <= v * (1 + e) ->
  x * (1 - (k + 1) * e) <= r <= x * (1 + (k + 1.1) * e).
Proof.
  intros Hx He Hk [Hvl Hvu] [Hrl Hru].
  assert (H1 : v * (1 + e) <= x * (1 + k * e) * (1 + e))
    by (apply Rmult_le_compat_r; lra).
  assert (H2 : x * (1 - k * e) * (1 - e) <= v * (1 - e))
    by (apply Rmult_le_compat_r; lra).
  assert (Hxe : 0 <= x * e) by (apply Rmult_le_pos; lra).
  assert (Hke : 0 <= k * e <= 0.01).
  { split; [apply Rmult_le_pos; lra|].
    apply Rle_trans with (10 * e); [apply Rmult_le_compat_r; lra | lra]. }
  pose proof (Rmult_le_pos (x * e) (0.1 - k * e) Hxe ltac:(lra)) as H3.
  pose proof (Rmult_le_pos (x * e) (k * e) Hxe ltac:(lra)) as H4.
  split; lra.
Qed.

(** The product of an integer by a literal, rounded. *)
Lemma int_lit_err (n : Z) (c : R) :
  (0 <= n <= 2 ^ 53)%Z -> / 2 <= c <= 100 ->
  let x := IZR n * c in
  x * (1 - 2 * eps64) <= IZR n ⊗ lit c <= x * (1 + 2.1 * eps64).
Proof.
  intros Hn Hc x. pose proof eps64_tight as He.
  assert (Hn0 : IZR n = 0 \/ 1 <= IZR n <= 9007199254740992).
  { destruct (Z.eq_dec n 0%Z) as [->|]; [now left | right].
    split; [apply (IZR_le 1) | apply (IZR_le n (2 ^ 53)%Z)]; lia. }
  unfold fmul, lit.
  pose proof (rnd_rel c ltac:(lra)) as HL.
  pose proof (scaled_between (IZR n) (rnd c) c eps64 ltac:(lra) HL) as Hp.
  assert (Hx0 : 0 <= x) by (unfold x; apply Rmult_le_pos; lra).
  assert (Hr : IZR n * rnd c * (1 - eps64) <= rnd (IZR n * rnd c)
               <= IZR n * rnd c * (1 + eps64)).
  { apply rnd_rel0. destruct Hn0 as [-> | Hn1]; [left; lra | right].
    assert (/ 4 <= rnd c <= 200) by (unfold eps64 in HL; lra).
    split.
    - apply Rle_trans with (1 * / 4); [lra|].
      apply Rmult_le_compat; lra.
    - apply Rle_trans with (9007199254740992 * 200); [|lra].
      apply Rmult_le_compat; lra. }
  pose proof (rel_step x (IZR n * rnd c) (rnd (IZR n * rnd c)) eps64 1
                Hx0 ltac:(lra) ltac:(lra)) as Hs.
  rewrite !Rmult_1_l in Hs. fold x in Hp.
  replace (1 + 1) with 2 in Hs by lra.
  replace (1 + 1.1) with 2.1 in Hs by lra.
  apply Hs; [lra | exact Hr].
Qed.

(** The argument of the sine or cosine: three roundings and two literals
    away from [i * c1 + seed * c2]. *)
Lemma hash_arg_err (i seed : Z) (c1 c2 : R) :
  (0 <= i <= 2 ^ 53)%Z -> (0 <= seed <= 2 ^ 53)%Z ->
  / 2 <= c1 <= 100 -> / 2 <= c2 <= 100 ->
  let t := IZR i * c1 + IZR seed * c2 in
  0 <= t /\ Rabs ((IZR i ⊗ lit c1 ⊕ IZR seed ⊗ lit c2) - t) <= 4 * eps64 * t.
Proof.
  intros Hi Hs Hc1 Hc2 t. pose proof eps64_tight as He.
  pose proof (int_lit_err i c1 Hi Hc1) as Ha.
  pose proof (int_lit_err seed c2 Hs Hc2) as Hb.
  cbv zeta in Ha, Hb.
  set (a := IZR i ⊗ lit c1) in *. set (b := IZR seed ⊗ lit c2) in *.
  assert (HI0 : 0 <= IZR i <= 9007199254740992).
  { split; [apply (IZR_le 0) | apply (IZR_le i (2 ^ 53)%Z)]; lia. }
  assert (HS0 : 0 <= IZR seed <= 9007199254740992).
  { split; [apply (IZR_le 0) | apply (IZR_le seed (2 ^ 53)%Z)]; lia. }
  assert (Hx0 : 0 <= IZR i * c1) by (apply Rmult_le_pos; lra).
  assert (Hy0 : 0 <= IZR seed * c2) by (apply Rmult_le_pos; lra).
  assert (Hx1 : IZR i * c1 <= 9007199254740992 * 100)
    by (apply Rmult_le_compat; lra).
  assert (Hy1 : IZR seed * c2 <= 9007199254740992 * 100)
    by (apply Rmult_le_compat; lra).
  assert (Ht0 : 0 <= t) by (unfold t; lra).
  split; [exact Ht0|].
  assert (Hte : 0 <= t * eps64) by (apply Rmult_le_pos; lra).
  assert (Hab : t * (1 - 2.1 * eps64) <= a + b <= t * (1 + 2.1 * eps64)).
  { unfold t. assert (0 <= IZR i * c1 * eps64) by (apply Rmult_le_pos; lra).
    assert (0 <= IZR seed * c2 * eps64) by (apply Rmult_le_pos; lra).
    split; lra. }
  assert (Hsum : a + b = 0 \/ 1e-300 <= a + b <= 1e300).
  { destruct (Z.eq_dec i 0%Z) as [Hi0|Hi0], (Z.eq_dec seed 0%Z) as [Hs0|Hs0].
    - left. subst i seed. unfold t in Hab. lra.
    - right. assert (1 <= IZR seed) by (apply (IZR_le 1); lia).
      assert (/ 2 <= IZR seed * c2).
      { apply Rle_trans with (1 * / 2); [lra|].
        apply Rmult_le_compat; lra. }
      unfold t in *. unfold eps64 in *. split; lra.
    - right. assert (1 <= IZR i) by (apply (IZR_le 1); lia).
      assert (/ 2 <= IZR i * c1).
      { apply Rle_trans with (1 * / 2); [lra|].
        apply Rmult_le_compat; lra. }
      unfold t in *. unfold eps64 in *. split; lra.
    - right. assert (1 <= IZR i) by (apply (IZR_le 1); lia).
      assert (/ 2 <= IZR i * c1).
      { apply Rle_trans with (1 * / 2); [lra|].
        apply Rmult_le_compat; lra. }
      unfold t in *. unfold eps64 in *. split; lra. }
  pose proof (rnd_rel0 (a + b) Hsum) as Hr.
  pose proof (rel_step t (a + b) (rnd (a + b)) eps64 2.1
                Ht0 ltac:(lra) ltac:(lra) Hab Hr) as Hfin.
  unfold fadd. apply Rabs_le. lra.
Qed.

(** The wave before the remainder: as the loop computes it, with [F] the
    built-in function, against the real one, with [f] the real function. *)
Lemma wave_err (f F : R -> R) (i seed : Z) (c1 c2 c3 : R) :
  (forall a b, Rabs (f b - f a) <= Rabs (b - a)) ->
  (forall x, -1 <= f x <= 1) ->
  (forall x, Rabs (F x - f x) <= 1e-9) ->
  (0 <= i <= 2 ^ 53)%Z -> (0 <= seed <= 2 ^ 53)%Z ->
  / 2 <= c1 <= 100 -> / 2 <= c2 <= 100 -> 1 <= c3 <= 100000 ->
  let t := IZR i * c1 + IZR seed * c2 in
  Rabs (Rabs (F (IZR i ⊗ lit c1 ⊕ IZR seed ⊗ lit c2) ⊗ lit c3)
        - Rabs (f t * c3))
  <= c3 * (1e-9 + eps64 * (4 * t + 7)).
Proof.
  intros Hlip Hf HF Hi Hs Hc1 Hc2 Hc3 t.
  pose proof eps64_tight as He.
  assert (He' : 1e-16 <= eps64) by (unfold eps64; lra).
  destruct (hash_arg_err i seed c1 c2 Hi Hs Hc1 Hc2) as [Ht0 Harg].
  fold t in Ht0, Harg.
  set (arg := IZR i ⊗ lit c1 ⊕ IZR seed ⊗ lit c2) in *.
  set (m := F arg).
  assert (Hte : 0 <= eps64 * t) by (apply Rmult_le_pos; lra).
  assert (Hm : Rabs (m - f t) <= 1e-9 + 4 * eps64 * t).
  { replace (m - f t) with ((F arg - f arg) + (f arg - f t)) by (unfold m; lra).
    eapply Rle_trans; [apply Rabs_triang|].
    pose proof (HF arg). pose proof (Hlip t arg). lra. }
  assert (Hm2 : Rabs m <= 2).
  { pose proof (HF arg) as H1. apply Rabs_le_both in H1.
    pose proof (Hf arg). apply Rabs_le. unfold m. lra. }
  pose proof (rnd_rel c3 ltac:(lra)) as HL.
  set (L := rnd c3) in *.
  assert (Hce : 0 <= c3 * eps64) by (apply Rmult_le_pos; lra).
  assert (HLc : Rabs (L - c3) <= c3 * eps64) by (apply Rabs_le; lra).
  assert (HL2 : Rabs L <= 2 * c3).
  { apply Rabs_le. unfold eps64 in *. lra. }
  assert (HmL : Rabs (m * L) <= 4 * c3).
  { rewrite Rabs_mult. replace (4 * c3) with (2 * (2 * c3)) by lra.
    apply Rmult_le_compat; (apply Rabs_pos || assumption). }
  pose proof (rnd_abs_err (m * L)) as Hp.
  assert (Hbig : 4 * c3 <= 1e300) by lra.
  specialize (Hp ltac:(lra)).
  assert (Htiny : 3e-300 <= 0.5 * (c3 * eps64)).
  { apply Rle_trans with (0.5 * (1 * 1e-16)); [lra|].
    apply Rmult_le_compat_l; [lra|]. apply Rmult_le_compat; lra. }
  assert (Hp' : Rabs (rnd (m * L) - m * L) <= 4.5 * (c3 * eps64)).
  { assert (eps64 * Rabs (m * L) <= eps64 * (4 * c3))
      by (apply Rmult_le_compat_l; lra).
    lra. }
  assert (Hq : Rabs (m * L - m * c3) <= 2 * (c3 * eps64)).
  { replace (m * L - m * c3) with (m * (L - c3)) by lra.
    rewrite Rabs_mult.
    apply Rmult_le_compat; (apply Rabs_pos || assumption). }
  assert (Hr : Rabs (m * c3 - f t * c3) <= c3 * (1e-9 + 4 * eps64 * t)).
  { replace (m * c3 - f t * c3) with (c3 * (m - f t)) by lra.
    rewrite Rabs_mult, (Rabs_pos_eq c3) by lra.
    apply Rmult_le_compat_l; lra. }
  eapply Rle_trans; [apply Rabs_triang_inv2|].
  unfold fmul, lit. fold L.
  replace (rnd (m * L) - f t * c3)
    with ((rnd (m * L) - m * L) + ((m * L - m * c3) + (m * c3 - f t * c3)))
    by lra.
  eapply Rle_trans; [apply Rabs_triang|].
  eapply Rle_trans;
    [apply Rplus_le_compat_l; apply Rabs_triang|].
  lra.
Qed.
End HashFacts.

(** ** The claims *)

Section Claims.
Context {B64 : Binary64} {BI : Builtins} {BR : Browser}.

Lemma height_2000_1000 : Preview.height 2000 1000 = 512%Z.
Proof.
  destruct (scale_large 2000) as [[Hl Hu] _]; [lia|].
  pose proof eps64_bounds as He.
  set (s := Preview.scale 2000) in *.
  assert (Hr : (511.9 <= rnd (1000 * s) <= 512.1)%R).
  { destruct (rnd_rel (1000 * s)) as [Ha Hb]; [lra|]. nra. }
  unfold Preview.height, fmul. fold s.
  rewrite (Math_round_near 512) by lra. lia.
Qed.

(** C2. When an image of natural size [imgWidth] x [imgHeight] (positive
    integers that a number holds exactly) has been decoded, the canvas is
    resized to [width] x [height] with [scale = min(1, 1024 / imgWidth)],
    [width = max(1, round(imgWidth * scale))] and [height] likewise; then
    [width >= 1], [height >= 1] and [width <= 1024]; if [imgWidth <= 1024]
    the scale is exactly 1 and the size is unchanged; a 2000 x 1000 image
    gives a 1024 x 512 surface. *)
Theorem drawPreview_scaling (st : State) (imgWidth imgHeight : Z) :
  is_Some (canvas st) ->
  (1 <= imgWidth <= 2 ^ 53)%Z -> (1 <= imgHeight <= 2 ^ 53)%Z ->
  let scale := Math_min 1 (IZR 1024 ⊘ IZR imgWidth) in
  let width := Z.max 1 (Math_round (IZR imgWidth ⊗ scale)) in
  let height := Z.max 1 (Math_round (IZR imgHeight ⊗ scale)) in
  canvas (img_onload st imgWidth imgHeight)
  = Some {| canvas_width := width; canvas_height := height |}
  /\ (1 <= width)%Z /\ (1 <= height)%Z /\ (width <= 1024)%Z
  /\ ((imgWidth <= 1024)%Z ->
      scale = 1%R /\ width = imgWidth /\ height = imgHeight)
  /\ (imgWidth = 2000%Z -> imgHeight = 1000%Z ->
      width = 1024%Z /\ height = 512%Z).
Proof.
  intros [c Hc] Hw Hh scale width height.
  assert (Hscale : scale = Preview.scale imgWidth).
  { unfold scale. symmetry. apply scale_nonzero. lia. }
  assert (Hwidth : width = Preview.width imgWidth).
  { unfold width, Preview.width. now rewrite Hscale. }
  assert (Hheight : height = Preview.height imgWidth imgHeight).
  { unfold height, Preview.height. now rewrite Hscale. }
  clearbody scale width height. subst scale width height.
  split; [unfold img_onload; simpl; now rewrite Hc|].
  split; [unfold Preview.width; lia|].
  split; [unfold Preview.height; lia|].
  split.
  - destruct (Z_le_gt_dec imgWidth 1024).
    + rewrite width_small; lia.
    + rewrite width_large; lia.
  - split.
    + intros Hle. split; [apply scale_small; lia|].
      split; [apply width_small; lia | apply height_small; lia].
    + intros -> ->. split; [apply width_large; lia | apply height_2000_1000].
Qed.

(** C3. Ingesting a non-empty batch appends one record per file, in the
    order of the files; when the registry was empty, the selection becomes
    the id of the first image of the batch; when it was not, the selection
    is left as it was. *)
Theorem addFiles_selection (st : State) (files : list File) :
  reachable st -> files ≠ [] ->
  exists (first : UploadedImage) (more : list UploadedImage),
    uploadedImages (addFiles st (Some files))
    = uploadedImages st ++ first :: more
    /\ img_name <$> first :: more = file_name <$> files
    /\ (uploadedImages st = [] ->
        selectedId (addFiles st (Some files)) = Some (img_id first))
    /\ (uploadedImages st ≠ [] ->
        selectedId (addFiles st (Some files)) = selectedId st).
Proof.
  intros Hreach Hfiles. apply reachable_Inv in Hreach.
  destruct Hreach as [Hc Hs Hn Hids Hnone Hsome].
  destruct files as [|file rest]; [done|].
  unfold addFiles.
  destruct (ingest_each_spec (file :: rest) [] (blobStore st) (uuidCalls st))
    as (new & Heq & Hlen & _ & _ & _ & Hnames & _).
  rewrite Heq. simpl app.
  destruct new as [|first more]; [discriminate|].
  exists first, more. simpl.
  split; [reflexivity|]. split; [exact Hnames|]. split.
  - intros Hnil. now rewrite (Hnone Hnil).
  - intros Hne. destruct (Hsome Hne) as (image & Hin & Hsel).
    rewrite Hsel, falsy_uuid; [reflexivity|].
    rewrite Forall_forall in Hids. now apply Hids.
Qed.

(** C4. After [removeAll] every object URL that was live is released (the
    blob URL store is empty), no record is registered, nothing is selected
    and the canvas is 0 x 0. *)
Theorem removeAll_clears (st : State) :
  reachable st ->
  (forall u : string, u ∈ blobStore st -> u ∉ blobStore (removeAll st))
  /\ blobStore (removeAll st) = ∅
  /\ uploadedImages (removeAll st) = []
  /\ selectedId (removeAll st) = None
  /\ canvas (removeAll st)
     = Some {| canvas_width := 0; canvas_height := 0 |}.
Proof.
  intros Hreach. apply reachable_Inv in Hreach.
  destruct Hreach as [[c Hc] Hs Hn Hids Hnone Hsome].
  assert (Hempty : blobStore (removeAll st) = ∅).
  { simpl. rewrite revoke_all_spec, Hs. set_solver. }
  split; [|split; [exact Hempty|]].
  - intros u _. rewrite Hempty. set_solver.
  - simpl. rewrite Hc. repeat split.
Qed.

(** C5. Whatever sequence of events the page has handled, the selection is
    null or the id of a registered image. *)
Theorem selection_registered (evs : list Event) :
  selectedId (run mounted evs) = None
  \/ exists image : UploadedImage,
       image ∈ uploadedImages (run mounted evs)
       /\ selectedId (run mounted evs) = Some (img_id image).
Proof.
  destruct (Inv_run evs mounted Inv_mounted) as [_ _ _ _ Hnone Hsome].
  destruct (uploadedImages (run mounted evs)) as [|image rest] eqn:Himgs.
  - left. now apply Hnone.
  - right. now apply Hsome.
Qed.

Lemma size_store (st : State) :
  Inv st -> size (blobStore st) = length (uploadedImages st).
Proof.
  intros [_ Hs Hn _ _ _]. rewrite Hs, size_list_to_set by exact Hn.
  unfold urls. now rewrite length_fmap.
Qed.

(** C6. Whatever sequence of events the page has handled, the blob URL
    store holds as many live URLs as there are registered images; from such
    a state [addFiles] adds one URL per file, [removeAll] removes exactly
    the URLs of the records, and the continuation of [downloadPreview]
    leaves the store as it found it. *)
Theorem handles_match_records (evs : list Event) :
  let st := run mounted evs in
  size (blobStore st) = length (uploadedImages st)
  /\ (forall files : list File,
        size (blobStore (addFiles st (Some files)))
        = (size (blobStore st) + length files)%nat
        /\ length (uploadedImages (addFiles st (Some files)))
           = (length (uploadedImages st) + length files)%nat)
  /\ blobStore (removeAll st)
     = blobStore st ∖ list_to_set (img_url <$> uploadedImages st)
  /\ (forall blob : option Blob,
        blobStore (downloadPreview_resume st blob) = blobStore st).
Proof.
  intros st. pose proof (Inv_run evs mounted Inv_mounted) as HI. fold st in HI.
  split; [now apply size_store|]. split; [|split].
  - intros files.
    pose proof (Inv_addFiles st (Some files) HI) as HI'.
    rewrite (size_store _ HI'), (size_store _ HI).
    assert (Hlen : length (uploadedImages (addFiles st (Some files)))
                   = (length (uploadedImages st) + length files)%nat).
    { destruct files as [|file rest]; [simpl; lia|].
      unfold addFiles.
      destruct (ingest_each_spec (file :: rest) [] (blobStore st)
                  (uuidCalls st)) as (new & Heq & Hlen & _).
      rewrite Heq. simpl app. destruct new; [discriminate|].
      simpl uploadedImages. rewrite length_app. now rewrite Hlen. }
    split; exact Hlen.
  - simpl. apply revoke_all_spec.
  - intros [b|]; [|reflexivity]. simpl.
    pose proof (createObjectURL_fresh (blobStore st)) as Hf. set_solver.
Qed.

Lemma length_handle (st : State) (ev : Event) :
  length (uploadedImages (handle st ev))
  = match ev with
    | Ingest (Some fs) => (length (uploadedImages st) + length fs)%nat
    | RemoveAll => 0%nat
    | _ => length (uploadedImages st)
    end.
Proof.
  destruct ev as [[fs|]| i | | | w h | | blob | | v | v | v]; simpl;
    try reflexivity.
  - destruct fs as [|file rest]; [simpl; lia|].
    unfold addFiles.
    destruct (ingest_each_spec (file :: rest) [] (blobStore st) (uuidCalls st))
      as (new & Heq & Hlen & _).
    rewrite Heq. simpl app. destruct new; [discriminate|].
    simpl uploadedImages. rewrite length_app. now rewrite Hlen.
  - unfold clickCard. now destruct (uploadedImages st !! i).
  - unfold downloadPreview_begin. now destruct (downloadPreview_guard st).
  - destruct (pendingBlobs st); [reflexivity|]. now destruct blob.
  - unfold downloadOriginal. now destruct (selectedImage st).
Qed.

Lemma length_run (evs : list Event) :
  forall st : State,
    length (uploadedImages (run st evs))
    = if existsb is_clear evs then files_passed (after_last_clear evs)
      else (length (uploadedImages st) + files_passed evs)%nat.
Proof.
  induction evs as [|ev rest IH]; intros st.
  - simpl. lia.
  - change (run st (ev :: rest)) with (run (handle st ev) rest).
    rewrite IH, length_handle. cbn [existsb after_last_clear].
    destruct (existsb is_clear rest).
    + now rewrite orb_true_r.
    + rewrite orb_false_r.
      destruct ev as [[fs|]| | | | | | | | | | ]; simpl; lia.
Qed.

(** C7. After any sequence of events the number of registered images is
    the total number of files passed to the ingestion calls that follow
    the last clear-all of the sequence (to all of them when there is
    none). *)
Theorem registry_count (evs : list Event) :
  length (uploadedImages (run mounted evs))
  = files_passed (after_last_clear evs).
Proof.
  rewrite length_run.
  destruct (existsb is_clear evs) eqn:Hclear; [reflexivity|].
  simpl. f_equal.
  induction evs as [|ev rest IH]; [reflexivity|].
  cbn [existsb] in Hclear. apply orb_false_iff in Hclear as [Hev Hrest].
  cbn [after_last_clear]. now rewrite Hrest, Hev.
Qed.

(** C8, as amended.  [downloadPreview] returns at once, with nothing
    pending and the state untouched, when no image is selected at the
    call; its continuation changes nothing when [toBlob] gave [null]; when
    [toBlob] gave a blob, exactly one download is triggered and the rest
    of the state is as before: the download is named after the image that
    is selected when the continuation runs, with [.png] appended, and
    [preview.png] when no image is selected any more. *)
Theorem downloadPreview_spec (st : State) :
  (selectedImage st = None -> downloadPreview_begin st = st)
  /\ downloadPreview_resume st None = st
  /\ (forall blob : Blob,
        let st' := downloadPreview_resume st (Some blob) in
        (exists link : Download,
           downloads st' = downloads st ++ [link]
           /\ (forall current : UploadedImage,
                 selectedImage st = Some current ->
                 download link = (img_name current ++ ".png")%string)
           /\ (selectedImage st = None -> download link = "preview.png"))
        /\ blobStore st' = blobStore st
        /\ uploadedImages st' = uploadedImages st
        /\ selectedId st' = selectedId st
        /\ canvas st' = canvas st).
Proof.
  split; [|split].
  - intros Hsel. unfold downloadPreview_begin, downloadPreview_guard.
    rewrite Hsel. now destruct (canvas st).
  - reflexivity.
  - intros blob st'. subst st'. simpl.
    split; [|split; [|repeat split]].
    + eexists. split; [reflexivity|]. simpl. unfold preview_name. split.
      * intros current Hsel. now rewrite Hsel.
      * intros Hsel. now rewrite Hsel.
    + pose proof (createObjectURL_fresh (blobStore st)) as Hf. set_solver.
Qed.

Lemma hex_digit_facts (c : ascii) (v : Z) :
  Color.hex_digit c = Some v ->
  (0 <= v <= 15)%Z
  /\ Color.is_white_space c = false
  /\ Ascii.eqb c "-" = false /\ Ascii.eqb c "+" = false
  /\ Ascii.eqb c "x" = false /\ Ascii.eqb c "X" = false.
Proof.
  intros Hc.
  destruct c as [[] [] [] [] [] [] [] []]; vm_compute in Hc;
    try discriminate Hc; injection Hc as <-;
    (split; [lia | vm_compute; repeat split; reflexivity]).
Qed.

Lemma Ztrunc_IZR (n : Z) : Ztrunc (IZR n) = n.
Proof.
  unfold Ztrunc. destruct (Rle_dec 0 (IZR n)).
  - apply ZfloorZ.
  - unfold Zceil. rewrite <- opp_IZR, ZfloorZ. lia.
Qed.

(** [parseInt] of six hexadecimal digits is their value in base 16. *)
Lemma parseInt16_six (c1 c2 c3 c4 c5 c6 : ascii) (v1 v2 v3 v4 v5 v6 : Z) :
  Color.hex_digit c1 = Some v1 -> Color.hex_digit c2 = Some v2 ->
  Color.hex_digit c3 = Some v3 -> Color.hex_digit c4 = Some v4 ->
  Color.hex_digit c5 = Some v5 -> Color.hex_digit c6 = Some v6 ->
  Color.ToInt32
    (Color.parseInt16
       (String c1 (String c2 (String c3 (String c4 (String c5
          (String c6 EmptyString)))))))
  = (65536 * (16 * v1 + v2) + 256 * (16 * v3 + v4) + (16 * v5 + v6))%Z.
Proof.
  intros H1 H2 H3 H4 H5 H6.
  destruct (hex_digit_facts _ _ H1) as (B1 & Hws & Hm & Hp & _ & _).
  destruct (hex_digit_facts _ _ H2) as (B2 & _ & _ & _ & Hx & HX).
  destruct (hex_digit_facts _ _ H3) as (B3 & _).
  destruct (hex_digit_facts _ _ H4) as (B4 & _).
  destruct (hex_digit_facts _ _ H5) as (B5 & _).
  destruct (hex_digit_facts _ _ H6) as (B6 & _).
  unfold Color.parseInt16. cbn [Color.skip_white_space]. rewrite Hws.
  cbn [Color.strip_sign]. rewrite Hm, Hp.
  cbn [Color.strip_0x]. rewrite Hx, HX, andb_false_r.
  cbn [Color.hex_prefix]. rewrite H1, H2, H3, H4, H5, H6.
  unfold Color.ToInt32.
  rewrite rnd_int by lia. rewrite Ztrunc_IZR.
  rewrite Z.mod_small by lia.
  destruct (Z.ltb_spec
    (1 * (16 * (16 * (16 * (16 * (16 * (16 * 0 + v1) + v2) + v3) + v4) + v5)
          + v6)) (2 ^ 31)); lia.
Qed.

Lemma padEnd6_six (c1 c2 c3 c4 c5 c6 : ascii) :
  Color.padEnd6
    (String c1 (String c2 (String c3 (String c4 (String c5
       (String c6 EmptyString))))))
  = String c1 (String c2 (String c3 (String c4 (String c5
      (String c6 EmptyString))))).
Proof. reflexivity. Qed.

(** C10. For a six-digit colour [#rrggbb], [withAlpha] gives
    [rgba(r, g, b, a)] with the decimal values of the three pairs and the
    text of the alpha; for a three-digit colour [#rgb] it gives what it
    gives for the six-digit colour that doubles each digit, so that a
    three-digit tint in the effect settings yields the tint layer of its
    six-digit expansion. *)
Theorem withAlpha_hex (alpha : R) (c1 c2 c3 c4 c5 c6 : ascii)
        (v1 v2 v3 v4 v5 v6 : Z) :
  Color.hex_digit c1 = Some v1 -> Color.hex_digit c2 = Some v2 ->
  Color.hex_digit c3 = Some v3 -> Color.hex_digit c4 = Some v4 ->
  Color.hex_digit c5 = Some v5 -> Color.hex_digit c6 = Some v6 ->
  Color.withAlpha
    (String "#" (String c1 (String c2 (String c3 (String c4 (String c5
       (String c6 EmptyString)))))))
    alpha
  = ("rgba(" ++ Color.int_toString (16 * v1 + v2) ++ ", "
       ++ Color.int_toString (16 * v3 + v4) ++ ", "
       ++ Color.int_toString (16 * v5 + v6) ++ ", "
       ++ Number_toString alpha ++ ")")%string
  /\ Color.withAlpha
       (String "#" (String c1 (String c3 (String c5 EmptyString)))) alpha
     = Color.withAlpha
         (String "#" (String c1 (String c1 (String c3 (String c3 (String c5
            (String c5 EmptyString))))))) alpha
  /\ (forall (i g w h : R),
        Effect.tintLayer
          {| Effect.intensity := i; Effect.grain := g;
             Effect.tint :=
               String "#" (String c1 (String c3 (String c5 EmptyString))) |}
          w h
        = Effect.tintLayer
            {| Effect.intensity := i; Effect.grain := g;
               Effect.tint :=
                 String "#" (String c1 (String c1 (String c3 (String c3
                   (String c5 (String c5 EmptyString)))))) |}
            w h).
Proof.
  intros H1 H2 H3 H4 H5 H6. split; [|split; reflexivity].
  destruct (hex_digit_facts _ _ H1) as (B1 & _).
  destruct (hex_digit_facts _ _ H2) as (B2 & _).
  destruct (hex_digit_facts _ _ H3) as (B3 & _).
  destruct (hex_digit_facts _ _ H4) as (B4 & _).
  destruct (hex_digit_facts _ _ H5) as (B5 & _).
  destruct (hex_digit_facts _ _ H6) as (B6 & _).
  unfold Color.withAlpha.
  cbn [Color.replace_hash Ascii.eqb Bool.eqb String.length Nat.eqb].
  rewrite padEnd6_six.
  rewrite (parseInt16_six _ _ _ _ _ _ _ _ _ _ _ _ H1 H2 H3 H4 H5 H6).
  set (n := (65536 * (16 * v1 + v2) + 256 * (16 * v3 + v4)
             + (16 * v5 + v6))%Z).
  assert (Hr : Z.land (Z.shiftr n 16) 255 = (16 * v1 + v2)%Z).
  { rewrite Z.shiftr_div_pow2 by lia. change 255%Z with (Z.ones 8).
    rewrite Z.land_ones by lia. change (2 ^ 16)%Z with 65536%Z.
    change (2 ^ 8)%Z with 256%Z. unfold n.
    Z.to_euclidean_division_equations. lia. }
  assert (Hg : Z.land (Z.shiftr n 8) 255 = (16 * v3 + v4)%Z).
  { rewrite Z.shiftr_div_pow2 by lia. change 255%Z with (Z.ones 8).
    rewrite Z.land_ones by lia. change (2 ^ 8)%Z with 256%Z. unfold n.
    Z.to_euclidean_division_equations. lia. }
  assert (Hb : Z.land n 255 = (16 * v5 + v6)%Z).
  { change 255%Z with (Z.ones 8).
    rewrite Z.land_ones by lia. change (2 ^ 8)%Z with 256%Z. unfold n.
    Z.to_euclidean_division_equations. lia. }
  now rewrite Hr, Hg, Hb.
Qed.

(** The [k]-th rectangle of the loop started at [i] is the one of index
    [i + k]. *)
Lemma sparkle_loop_coords (settings : Effect.EffectSettings) (seed w h : R)
      (todo : nat) :
  forall (i : Z) (k : nat),
    (k < todo)%nat ->
    Effect.fill_coords (Effect.sparkle_loop settings seed w h todo i) !! k
    = Some (Effect.hash_x (i + Z.of_nat k) w seed,
            Effect.hash_y (i + Z.of_nat k) h seed).
Proof.
  induction todo as [|todo IH]; intros i k Hk; [lia|].
  cbn [Effect.sparkle_loop Effect.sparkle_body app Effect.fill_coords].
  destruct k as [|k].
  - cbn [lookup list_lookup]. rewrite Z.add_0_r. reflexivity.
  - rewrite lookup_cons_ne_0 by lia. cbn [Nat.pred].
    rewrite IH by lia. do 3 f_equal; lia.
Qed.

Lemma sparkleLayer_coords (settings : Effect.EffectSettings) (seed w h : R)
      (i : nat) :
  (Z.of_nat i < Effect.sparkCount settings w h)%Z ->
  Effect.fill_coords (Effect.sparkleLayer settings seed w h) !! i
  = Some (Effect.hash_x (Z.of_nat i) w seed, Effect.hash_y (Z.of_nat i) h seed).
Proof.
  intros Hi. unfold Effect.sparkleLayer.
  cbn [app Effect.fill_coords].
  rewrite sparkle_loop_coords by lia. reflexivity.
Qed.

Local Open Scope R_scope.

(** C1. In a render of a [width] x [height] surface with seed [seed] (a
    count of refreshes, a whole number from 0 to [2^53]), the rectangle
    drawn for sample [i] of the sparkle layer is at [(x, y)] where [x] is
    [vx mod width] and [y] is [vy mod height]: [x] lies from 0 to [width],
    [width] excluded, and differs from [vx] by a whole multiple of [width],
    and likewise [y].  Here [vx] is [|sin(i*12.9898 + seed*1.7) *
    43758.5453|] and [vy] is [|cos(i*78.233 + seed*0.9) * 12345.6789|] as
    number arithmetic evaluates them, which is within [tolerance seed] of
    their real values.  The coordinates are the same whatever the effect
    settings are: two renders with the same index, width, height and seed
    give the same coordinates. *)
Theorem sparkle_coordinates (s1 s2 : Effect.EffectSettings)
        (seed width height : Z) (i : nat) :
  (1 <= width)%Z -> (1 <= height)%Z -> (0 <= seed <= 2 ^ 53)%Z ->
  (Z.of_nat i < Effect.sparkCount s1 (IZR width) (IZR height))%Z ->
  (Z.of_nat i < Effect.sparkCount s2 (IZR width) (IZR height))%Z ->
  let vx := Rabs (Math_sin (IZR (Z.of_nat i) ⊗ lit 12.9898
                            ⊕ IZR seed ⊗ lit 1.7) ⊗ lit 43758.5453) in
  let vy := Rabs (Math_cos (IZR (Z.of_nat i) ⊗ lit 78.233
                            ⊕ IZR seed ⊗ lit 0.9) ⊗ lit 12345.6789) in
  exists x y : R,
    Effect.fill_coords
      (Effect.sparkleLayer s1 (IZR seed) (IZR width) (IZR height)) !! i
    = Some (x, y)
    /\ Effect.fill_coords
         (Effect.sparkleLayer s2 (IZR seed) (IZR width) (IZR height)) !! i
       = Some (x, y)
    /\ HashSpec.is_mod vx (IZR width) x
    /\ HashSpec.is_mod vy (IZR height) y
    /\ Rabs (vx - HashSpec.wave_x (Z.of_nat i) seed)
       <= HashSpec.tolerance seed
    /\ Rabs (vy - HashSpec.wave_y (Z.of_nat i) seed)
       <= HashSpec.tolerance seed.
Proof.
  intros Hw Hh Hseed H1 H2 vx vy.
  assert (Hi : (0 <= Z.of_nat i < 1400)%Z).
  { unfold Effect.sparkCount in H1. lia. }
  assert (HW : 0 < IZR width) by (apply (IZR_lt 0); lia).
  assert (HH : 0 < IZR height) by (apply (IZR_lt 0); lia).
  assert (HI : 0 <= IZR (Z.of_nat i) <= 1399).
  { split; [apply (IZR_le 0) | apply (IZR_le _ 1399)]; lia. }
  assert (HS : 0 <= IZR seed) by (apply (IZR_le 0); lia).
  exists (vx %% IZR width), (vy %% IZR height).
  split; [exact (sparkleLayer_coords s1 (IZR seed) _ _ i H1)|].
  split; [exact (sparkleLayer_coords s2 (IZR seed) _ _ i H2)|].
  split; [apply js_rem_is_mod; [apply Rabs_pos | exact HW]|].
  split; [apply js_rem_is_mod; [apply Rabs_pos | exact HH]|].
  split.
  - eapply Rle_trans.
    + apply (wave_err sin Math_sin (Z.of_nat i) seed 12.9898 1.7 43758.5453);
        try lra; try lia;
        [ intros a b; apply sin_lipschitz | apply SIN_bound
        | apply Math_sin_acc ].
    + unfold HashSpec.tolerance, eps64. lra.
  - eapply Rle_trans.
    + apply (wave_err cos Math_cos (Z.of_nat i) seed 78.233 0.9 12345.6789);
        try lra; try lia;
        [ intros a b; apply cos_lipschitz | apply COS_bound
        | apply Math_cos_acc ].
    + unfold HashSpec.tolerance, eps64. lra.
Qed.

(** *** Seed sensitivity of sample 0 *)

Lemma cos_approx_3 (a : R) :
  cos_approx a 3
  = 1 - a * a / 2 + (a * a) * (a * a) / 24
    - (a * a) * (a * a) * (a * a) / 720.
Proof.
  unfold cos_approx, cos_term. cbn [sum_f_R0].
  rewrite !INR_IZR_INZ.
  change (Z.of_nat (fact (2 * 0))) with 1%Z.
  change (Z.of_nat (fact (2 * 1))) with 2%Z.
  change (Z.of_nat (fact (2 * 2))) with 24%Z.
  change (Z.of_nat (fact (2 * 3))) with 720%Z.
  cbn [Nat.mul Nat.add pow]. field.
Qed.

Lemma cos_approx_4 (a : R) :
  cos_approx a 4
  = 1 - a * a / 2 + (a * a) * (a * a) / 24
    - (a * a) * (a * a) * (a * a) / 720
    + (a * a) * (a * a) * ((a * a) * (a * a)) / 40320.
Proof.
  unfold cos_approx, cos_term. cbn [sum_f_R0].
  rewrite !INR_IZR_INZ.
  change (Z.of_nat (fact (2 * 0))) with 1%Z.
  change (Z.of_nat (fact (2 * 1))) with 2%Z.
  change (Z.of_nat (fact (2 * 2))) with 24%Z.
  change (Z.of_nat (fact (2 * 3))) with 720%Z.
  change (Z.of_nat (fact (2 * 4))) with 40320%Z.
  cbn [Nat.mul Nat.add pow]. field.
Qed.

(** The cosine around 0.9, from the alternating series. *)
Lemma cos_near_09 (a : R) :
  0.899999 <= a <= 0.900001 -> 0.62159 <= cos a <= 0.62162.
Proof.
  intros Ha. pose proof PI2_1 as Hpi.
  destruct (COS a) as [Hl Hu]; [lra | lra |].
  unfold cos_lb in Hl. unfold cos_ub in Hu.
  rewrite cos_approx_3 in Hl. rewrite cos_approx_4 in Hu.
  set (a2 := a * a) in *.
  assert (H2 : 0.809998 <= a2 <= 0.810002) by (unfold a2; nra).
  set (a4 := a2 * a2) in *.
  assert (H4 : 0.65609 <= a4 <= 0.65611) by (unfold a4; nra).
  set (a6 := a4 * a2) in *.
  assert (H6 : 0.53143 <= a6 <= 0.53146) by (unfold a6; nra).
  set (a8 := a4 * a4) in *.
  assert (H8 : 0.4304 <= a8 <= 0.4305) by (unfold a8; nra).
  lra.
Qed.

(** The argument of the cosine for sample 0: the seed times [0.9]. *)
Lemma cos_arg_seed0 (c c' : R) : IZR 0 ⊗ c ⊕ 0 ⊗ c' = 0.
Proof.
  unfold fadd, fmul. now rewrite !Rmult_0_l, rnd_0, Rplus_0_l, rnd_0.
Qed.

Lemma cos_arg_seed1 (c x : R) : IZR 0 ⊗ c ⊕ 1 ⊗ lit x = rnd x.
Proof.
  unfold fadd, fmul, lit.
  now rewrite Rmult_0_l, rnd_0, Rmult_1_l, rnd_idem, Rplus_0_l, rnd_idem.
Qed.

Lemma cos_product_seed0 :
  12345.67 <= Math_cos 0 ⊗ lit 12345.6789 <= 12345.69.
Proof.
  pose proof eps64_bounds as He.
  pose proof (Math_cos_acc 0) as Hc. rewrite cos_0 in Hc.
  apply Rabs_le_both in Hc.
  destruct (rnd_rel 12345.6789) as [Hl Hu]; [lra|].
  unfold fmul, lit. set (k := rnd 12345.6789) in *. set (c := Math_cos 0) in *.
  assert (Hp : 12345.678 <= c * k <= 12345.68) by nra.
  destruct (rnd_rel (c * k)) as [Hl' Hu']; [lra|]. nra.
Qed.

Lemma cos_product_seed1 :
  7673.9 <= Math_cos (rnd 0.9) ⊗ lit 12345.6789 <= 7674.4.
Proof.
  pose proof eps64_bounds as He.
  destruct (rnd_rel 0.9) as [Hal Hau]; [lra|].
  pose proof (Math_cos_acc (rnd 0.9)) as Hc. apply Rabs_le_both in Hc.
  destruct (cos_near_09 (rnd 0.9)) as [Hcl Hcu]; [lra|].
  destruct (rnd_rel 12345.6789) as [Hl Hu]; [lra|].
  unfold fmul, lit. set (k := rnd 12345.6789) in *.
  set (c := Math_cos (rnd 0.9)) in *.
  assert (Hp : 7673.92 <= c * k <= 7674.35) by nra.
  destruct (rnd_rel (c * k)) as [Hl' Hu']; [lra|]. nra.
Qed.

(** C9. A refresh takes the seed from 0 to 1, and on a surface of integer
    width and height at least 1 the rectangle of sample 0 is then drawn at
    other coordinates than with seed 0. *)
Theorem refresh_moves_first_sparkle (st : State)
        (settings : Effect.EffectSettings) (width height : Z) :
  animationSeed st = 0 -> (1 <= width)%Z -> (1 <= height)%Z ->
  animationSeed (refreshDummyEffect st) = 1
  /\ Effect.fill_coords
       (Effect.sparkle_body settings (animationSeed (refreshDummyEffect st))
          (IZR width) (IZR height) 0)
     <> Effect.fill_coords
          (Effect.sparkle_body settings (animationSeed st)
             (IZR width) (IZR height) 0).
Proof.
  intros Hseed Hw Hh.
  assert (Hnext : animationSeed (refreshDummyEffect st) = 1).
  { simpl. rewrite Hseed. unfold fadd. rewrite Rplus_0_l. apply rnd_1. }
  split; [exact Hnext|].
  rewrite Hnext, Hseed.
  cbn [Effect.sparkle_body Effect.fill_coords].
  intros Heq. injection Heq as _ Hy.
  rewrite cos_arg_seed0, cos_arg_seed1 in Hy.
  pose proof cos_product_seed0 as H0.
  pose proof cos_product_seed1 as H1.
  set (Y0 := Math_cos 0 ⊗ lit 12345.6789) in *.
  set (Y1 := Math_cos (rnd 0.9) ⊗ lit 12345.6789) in *.
  unfold js_rem in Hy.
  rewrite (Rabs_pos_eq Y0), (Rabs_pos_eq Y1) in Hy by lra.
  set (k0 := Ztrunc (Y0 / IZR height)) in *.
  set (k1 := Ztrunc (Y1 / IZR height)) in *.
  assert (Hm : Y0 - Y1 = IZR (height * (k0 - k1))).
  { rewrite mult_IZR, minus_IZR. lra. }
  assert (Hlo : IZR 4671 < IZR (height * (k0 - k1))) by (rewrite <- Hm; lra).
  assert (Hhi : IZR (height * (k0 - k1)) < IZR 4672) by (rewrite <- Hm; lra).
  apply lt_IZR in Hlo. apply lt_IZR in Hhi. lia.
Qed.
End Claims.

(** ** The theorems at concrete inputs *)

Lemma drawPreview_scaling_witness :
  canvas (@img_onload exact_rounding (@mounted exact_rounding) 2000 1000)
  = Some {| canvas_width := 1024; canvas_height := 512 |}.
Proof.
  destruct (@drawPreview_scaling exact_rounding
              (@mounted exact_rounding) 2000 1000)
    as (Hcanvas & _ & _ & _ & _ & Hdims).
  - simpl. by eexists.
  - lia.
  - lia.
  - destruct Hdims as [Hw Hh]; [reflexivity | reflexivity |].
    rewrite Hcanvas. now rewrite Hw, Hh.
Defined.

Lemma sparkCount_100_100 :
  @Effect.sparkCount exact_rounding default_settings 100 100 = 34%Z.
Proof.
  unfold Effect.sparkCount, fadd, fmul, lit. simpl.
  rewrite (Math_round_near 34) by lra. reflexivity.
Qed.

Lemma sparkle_coordinates_witness :
  let vx := Rabs (sin (IZR (Z.of_nat 0) * 12.9898 + IZR 0 * 1.7)
                  * 43758.5453)%R in
  let vy := Rabs (cos (IZR (Z.of_nat 0) * 78.233 + IZR 0 * 0.9)
                  * 12345.6789)%R in
  exists x y : R,
    Effect.fill_coords
      (@Effect.sparkleLayer exact_rounding real_builtins default_settings
         (IZR 0) (IZR 100) (IZR 100)) !! 0%nat
    = Some (x, y)
    /\ Effect.fill_coords
         (@Effect.sparkleLayer exact_rounding real_builtins default_settings
            (IZR 0) (IZR 100) (IZR 100)) !! 0%nat
       = Some (x, y)
    /\ HashSpec.is_mod vx (IZR 100) x
    /\ HashSpec.is_mod vy (IZR 100) y
    /\ (Rabs (vx - HashSpec.wave_x (Z.of_nat 0) 0)
        <= HashSpec.tolerance 0)%R
    /\ (Rabs (vy - HashSpec.wave_y (Z.of_nat 0) 0)
        <= HashSpec.tolerance 0)%R.
Proof.
  apply (@sparkle_coordinates exact_rounding real_builtins
           default_settings default_settings 0 100 100 0);
    try lia; rewrite sparkCount_100_100; simpl; lia.
Defined.

Lemma addFiles_selection_witness :
  exists (first : UploadedImage) (more : list UploadedImage),
    uploadedImages
      (@addFiles counter_browser (@mounted exact_rounding) (Some [cat_png]))
    = uploadedImages (@mounted exact_rounding) ++ first :: more
    /\ img_name <$> first :: more = file_name <$> [cat_png]
    /\ (uploadedImages (@mounted exact_rounding) = [] ->
        selectedId
          (@addFiles counter_browser (@mounted exact_rounding)
             (Some [cat_png]))
        = Some (img_id first))
    /\ (uploadedImages (@mounted exact_rounding) ≠ [] ->
        selectedId
          (@addFiles counter_browser (@mounted exact_rounding)
             (Some [cat_png]))
        = selectedId (@mounted exact_rounding)).
Proof.
  apply (@addFiles_selection exact_rounding counter_browser
           (@mounted exact_rounding) [cat_png]).
  - exists []. reflexivity.
  - discriminate.
Defined.

Lemma removeAll_clears_witness :
  blobStore (removeAll one_image) = ∅
  /\ uploadedImages (removeAll one_image) = []
  /\ selectedId (removeAll one_image) = None
  /\ canvas (removeAll one_image)
     = Some {| canvas_width := 0; canvas_height := 0 |}.
Proof.
  apply (@removeAll_clears exact_rounding counter_browser one_image).
  exists [Ingest (Some [cat_png])]. reflexivity.
Defined.

Lemma downloadPreview_spec_witness :
  exists link : Download,
    downloads (@downloadPreview_resume counter_browser one_image
                 (Some png_blob))
    = [] ++ [link]
    /\ download link = "cat.png.png".
Proof.
  destruct (@downloadPreview_spec counter_browser one_image)
    as (_ & _ & Hblob).
  destruct (Hblob png_blob) as ((link & Hlog & Hname & _) & _).
  exists link. split; [exact Hlog|].
  apply (Hname {| img_id := counter_uuid 0; img_name := "cat.png";
                  img_size := 2048; img_type := "image/png";
                  img_url := fresh (∅ : gset string) |}).
  reflexivity.
Defined.

(** C8 as first stated fails: the name is taken when [toBlob] answers, and
    a reset in between leaves no image to name the download after.  With
    [cat.png] selected the export starts; the page is reset; the blob
    arrives: the one download is [preview.png], not the name of the source
    image with the suffix. *)
Lemma downloadPreview_name_counterexample :
  exists current : UploadedImage,
    selectedImage one_image = Some current
    /\ img_name current = "cat.png"
    /\ downloadPreview_guard one_image = true
    /\ download
       <$> downloads
             (@run exact_rounding counter_browser one_image
                [ExportComposite; RemoveAll; BlobReady (Some png_blob)])
       = ["preview.png"]
    /\ download
       <$> downloads
             (@run exact_rounding counter_browser one_image
                [ExportComposite; RemoveAll; BlobReady (Some png_blob)])
       ≠ [(img_name current ++ ".png")%string].
Proof.
  eexists. split; [reflexivity|]. split; [reflexivity|].
  split; [reflexivity|]. split; [reflexivity|]. discriminate.
Qed.

Lemma refresh_moves_first_sparkle_witness :
  Effect.fill_coords
    (@Effect.sparkle_body exact_rounding real_builtins default_settings
       (animationSeed (@refreshDummyEffect exact_rounding
                         (@mounted exact_rounding)))
       (IZR 5) (IZR 7) 0)
  <> Effect.fill_coords
       (@Effect.sparkle_body exact_rounding real_builtins default_settings
          (animationSeed (@mounted exact_rounding)) (IZR 5) (IZR 7) 0).
Proof.
  apply (@refresh_moves_first_sparkle exact_rounding real_builtins
           (@mounted exact_rounding) default_settings 5 7);
    [reflexivity | lia | lia].
Defined.

Lemma withAlpha_hex_witness :
  @Color.withAlpha exact_rounding real_builtins "#7c3aed" 0.165
  = "rgba(124, 58, 237, 0.165)".
Proof.
  apply (@withAlpha_hex exact_rounding real_builtins 0.165
           "7" "c" "3" "a" "e" "d" 7 12 3 10 14 13); reflexivity.
Defined.


(** ** Worked examples *)

(** Two files, a reset, one file: one image is registered. *)
Example registry_count_example :
  length
    (uploadedImages
       (@run exact_rounding counter_browser (@mounted exact_rounding)
          [Ingest (Some [cat_png; cat_png]); RemoveAll;
           Ingest (Some [cat_png])]))
  = 1%nat.
Proof. reflexivity. Qed.

(** The name of the export when the selection is still there. *)
Example export_name_example :
  download
  <$> downloads
        (@run exact_rounding counter_browser one_image
           [ExportComposite; BlobReady (Some png_blob)])
  = ["cat.png.png"].
Proof. reflexivity. Qed.

(** The second ingest leaves the selection on the first image. *)
Example second_ingest_example :
  selectedId
    (@run exact_rounding counter_browser one_image [Ingest (Some [cat_png])])
  = Some "00000000-0000-4000-8000-000000000000".
Proof. reflexivity. Qed.

(** * Further properties of the page *)

Section PageFacts.
Context {B64 : Binary64} {BI : Builtins} {BR : Browser}.

Lemma find_by_id (images : list UploadedImage) (sel : string) :
  (exists image, image ∈ images /\ img_id image = sel) ->
  exists found,
    List.find (fun image => String.eqb (img_id image) sel) images = Some found
    /\ found ∈ images /\ img_id found = sel.
Proof.
  induction images as [|first rest IH]; intros (image & Hin & Hid).
  - inversion Hin.
  - simpl. destruct (String.eqb (img_id first) sel) eqn:Hfirst.
    + exists first. apply String.eqb_eq in Hfirst.
      split; [reflexivity|]. split; [set_solver|assumption].
    + apply elem_of_cons in Hin as [->|Hin].
      * rewrite <- Hid, String.eqb_refl in Hfirst. discriminate.
      * destruct IH as (found & Hfind & Hmem & Hsel); [by exists image|].
        exists found. split; [assumption|]. split; [set_solver|assumption].
Qed.

(** Under the invariant the selection designates a record whose URL is
    live. *)
Lemma Inv_selected (st : State) :
  Inv st ->
  (uploadedImages st = [] -> selectedImage st = None)
  /\ (uploadedImages st ≠ [] ->
      exists current,
        selectedImage st = Some current
        /\ current ∈ uploadedImages st
        /\ selectedId st = Some (img_id current)
        /\ img_url current ∈ blobStore st).
Proof.
  intros [Hc Hs Hn Hids Hnone Hsome]. split.
  - intros Hnil. unfold selectedImage. now rewrite (Hnone Hnil).
  - intros Hne. destruct (Hsome Hne) as (image & Hin & Hsel).
    unfold selectedImage. rewrite Hsel.
    destruct (find_by_id (uploadedImages st) (img_id image))
      as (found & Hfind & Hmem & Hid); [by exists image|].
    exists found. split; [assumption|]. split; [assumption|].
    split; [now rewrite Hid|].
    rewrite Hs. unfold urls. apply elem_of_list_to_set.
    apply list_elem_of_fmap. by exists found.
Qed.

(** X1. Whatever the page has handled, [selectedImage()] is undefined
    exactly when no image is registered; otherwise it is a registered
    record and its id is the selection. *)
Theorem selectedImage_resolves (evs : list Event) :
  let st := run mounted evs in
  (selectedImage st = None <-> uploadedImages st = [])
  /\ (forall current, selectedImage st = Some current ->
        current ∈ uploadedImages st
        /\ selectedId st = Some (img_id current)).
Proof.
  intros st.
  destruct (Inv_selected st (Inv_run evs mounted Inv_mounted))
    as [Hnil Hcons].
  destruct (uploadedImages st) as [|first rest] eqn:Himgs.
  - split; [split; [reflexivity | intros _; now apply Hnil]|].
    intros current Hcur. rewrite Hnil in Hcur by reflexivity. discriminate.
  - destruct Hcons as (current & Hsel & Hin & Hid & _); [done|].
    split; [split; [rewrite Hsel; discriminate | discriminate]|].
    intros current' Hcur. rewrite Hsel in Hcur. injection Hcur as <-.
    split; assumption.
Qed.

(** X2. Whatever the page has handled, [drawPreview] starts a decode
    exactly when an image is registered, and then from the object URL of
    the selected record, which has not been revoked. *)
Theorem drawPreview_decodes_live (evs : list Event) :
  let st := run mounted evs in
  (drawPreview st = None <-> uploadedImages st = [])
  /\ (forall url, drawPreview st = Some url ->
        url ∈ blobStore st
        /\ exists current, selectedImage st = Some current
                           /\ img_url current = url).
Proof.
  intros st.
  pose proof (Inv_run evs mounted Inv_mounted) as HI. fold st in HI.
  destruct (Inv_selected st HI) as [Hnil Hcons].
  destruct (inv_canvas st HI) as [c Hc].
  unfold drawPreview. rewrite Hc.
  destruct (uploadedImages st) as [|first rest] eqn:Himgs.
  - rewrite Hnil by reflexivity.
    split; [split; reflexivity | intros url; discriminate].
  - destruct Hcons as (current & Hsel & Hin & Hid & Hlive); [done|].
    rewrite Hsel. split; [split; discriminate|].
    intros url [= <-]. split; [assumption | by exists current].
Qed.

(** X3. Whatever the page has handled, [downloadOriginal] does nothing
    when no image is registered; otherwise it triggers exactly one
    download, of the live object URL of the selected record under that
    record's name, and leaves the registry, the selection and the blob URL
    store as they were. *)
Theorem downloadOriginal_spec (evs : list Event) :
  let st := run mounted evs in
  (uploadedImages st = [] -> downloadOriginal st = st)
  /\ (uploadedImages st ≠ [] ->
      exists current,
        selectedImage st = Some current
        /\ downloads (downloadOriginal st)
           = downloads st
             ++ [ {| href := img_url current; download := img_name current |} ]
        /\ img_url current ∈ blobStore (downloadOriginal st)
        /\ uploadedImages (downloadOriginal st) = uploadedImages st
        /\ selectedId (downloadOriginal st) = selectedId st
        /\ blobStore (downloadOriginal st) = blobStore st).
Proof.
  intros st.
  destruct (Inv_selected st (Inv_run evs mounted Inv_mounted))
    as [Hnil Hcons].
  split.
  - intros Hempty. unfold downloadOriginal. now rewrite (Hnil Hempty).
  - intros Hne. destruct (Hcons Hne) as (current & Hsel & _ & _ & Hlive).
    exists current. unfold downloadOriginal. rewrite Hsel. simpl.
    repeat split; assumption.
Qed.

(** X4. Whatever the page has handled, the registered images have pairwise
    different object URLs and each of them is live. *)
Theorem urls_distinct_and_live (evs : list Event) :
  let st := run mounted evs in
  NoDup (img_url <$> uploadedImages st)
  /\ (forall image,
        image ∈ uploadedImages st -> img_url image ∈ blobStore st).
Proof.
  intros st.
  destruct (Inv_run evs mounted Inv_mounted) as [_ Hs Hn _ _ _].
  fold st in Hs, Hn. split; [exact Hn|].
  intros image Hin. rewrite Hs. unfold urls.
  apply elem_of_list_to_set, list_elem_of_fmap. by exists image.
Qed.

Lemma handle_appends (st : State) (ev : Event) :
  is_clear ev = false ->
  exists more, uploadedImages (handle st ev) = uploadedImages st ++ more.
Proof.
  intros Hev.
  destruct ev as [[fs|]| i | | | w h | | blob | | v | v | v];
    try discriminate Hev; simpl;
    try (exists []; now rewrite app_nil_r).
  - destruct fs as [|file rest]; [exists []; simpl; now rewrite app_nil_r|].
    unfold addFiles.
    destruct (ingest_each_spec (file :: rest) [] (blobStore st) (uuidCalls st))
      as (new & Heq & _).
    rewrite Heq. simpl app. destruct new; simpl; eauto.
  - exists []. rewrite app_nil_r. unfold clickCard.
    now destruct (uploadedImages st !! i).
  - exists []. rewrite app_nil_r. unfold downloadPreview_begin.
    now destruct (downloadPreview_guard st).
  - exists []. rewrite app_nil_r.
    destruct (pendingBlobs st); [reflexivity|]. now destruct blob.
  - exists []. rewrite app_nil_r. unfold downloadOriginal.
    now destruct (selectedImage st).
Qed.

(** X5. From any state, as long as no reset happens, the registry only
    grows at its end: the records already there stay in place, unchanged,
    whatever else the page handles. *)
Theorem registry_append_only (evs : list Event) :
  forall st : State,
    existsb is_clear evs = false ->
    exists more, uploadedImages (run st evs) = uploadedImages st ++ more.
Proof.
  induction evs as [|ev rest IH]; intros st Hclear.
  - exists []. simpl. now rewrite app_nil_r.
  - cbn [existsb] in Hclear. apply orb_false_iff in Hclear as [Hev Hrest].
    change (run st (ev :: rest)) with (run (handle st ev) rest).
    destruct (IH (handle st ev) Hrest) as (more2 & Heq2).
    destruct (handle_appends st ev Hev) as (more1 & Heq1).
    exists (more1 ++ more2). now rewrite Heq2, Heq1, app_assoc.
Qed.

(** X6. A reset is idempotent, and the first ingest after a reset, from any
    state, leaves exactly the new batch registered with its first image
    selected. *)
Theorem reset_then_ingest (st : State) (file : File) (files : list File) :
  removeAll (removeAll st) = removeAll st
  /\ exists first more,
       uploadedImages (addFiles (removeAll st) (Some (file :: files)))
       = first :: more
       /\ img_name <$> first :: more = file_name <$> file :: files
       /\ selectedId (addFiles (removeAll st) (Some (file :: files)))
          = Some (img_id first).
Proof.
  split.
  - unfold removeAll. simpl. now destruct (canvas st).
  - unfold addFiles.
    destruct (ingest_each_spec (file :: files) []
                (blobStore (removeAll st)) (uuidCalls (removeAll st)))
      as (new & Heq & Hlen & _ & _ & _ & Hnames & _).
    rewrite Heq. simpl app. destruct new as [|first more]; [discriminate|].
    exists first, more. simpl. repeat split. exact Hnames.
Qed.

(** X7. Tearing the component down releases every live object URL that the
    page has created, whatever it has handled before, and keeps the
    records. *)
Theorem onDestroy_releases (evs : list Event) :
  let st := run mounted evs in
  blobStore (onDestroy st) = ∅
  /\ uploadedImages (onDestroy st) = uploadedImages st.
Proof.
  intros st.
  destruct (Inv_run evs mounted Inv_mounted) as [_ Hs _ _ _ _]. fold st in Hs.
  split; [|reflexivity].
  simpl. rewrite revoke_all_spec, Hs. set_solver.
Qed.

Lemma seed_handle (st : State) (ev : Event) :
  animationSeed (handle st ev)
  = match ev with
    | Refresh => animationSeed st ⊕ 1
    | _ => animationSeed st
    end.
Proof.
  destruct ev as [[fs|]| i | | | w h | | blob | | v | v | v]; simpl;
    try reflexivity.
  - destruct fs as [|file rest]; [reflexivity|].
    unfold addFiles.
    destruct (ingest_each (file :: rest) [] (blobStore st) (uuidCalls st))
      as [[next store] calls]. reflexivity.
  - unfold clickCard. now destruct (uploadedImages st !! i).
  - unfold downloadPreview_begin. now destruct (downloadPreview_guard st).
  - destruct (pendingBlobs st); [reflexivity|]. now destruct blob.
  - unfold downloadOriginal. now destruct (selectedImage st).
Qed.

Lemma refreshes_nonneg (evs : list Event) : (0 <= refreshes evs)%Z.
Proof.
  induction evs as [|ev rest IH]; simpl; [lia|].
  destruct ev; lia.
Qed.

Lemma seed_run (evs : list Event) :
  forall (st : State) (s : Z),
    animationSeed st = IZR s -> (0 <= s)%Z ->
    (s + refreshes evs <= 2 ^ 53)%Z ->
    animationSeed (run st evs) = IZR (s + refreshes evs).
Proof.
  induction evs as [|ev rest IH]; intros st s Hs Hpos Hle.
  - simpl. now rewrite Z.add_0_r.
  - change (run st (ev :: rest)) with (run (handle st ev) rest).
    pose proof (refreshes_nonneg rest) as Hrest.
    pose proof (seed_handle st ev) as Hstep.
    destruct ev; cbn [refreshes] in Hle |- *;
      try (rewrite (IH _ s); [reflexivity | now rewrite Hstep | lia | lia]).
    rewrite (IH _ (s + 1)%Z); [f_equal; lia | | lia | lia].
    rewrite Hstep, Hs. unfold fadd.
    rewrite <- plus_IZR. apply rnd_int. lia.
Qed.

(** X8. The seed counts the presses of the refresh button: after any
    sequence of events with at most 2^53 of them it is exactly their
    number, whatever else happened in between. *)
Theorem seed_counts_refreshes (evs : list Event) :
  (refreshes evs <= 2 ^ 53)%Z ->
  animationSeed (run mounted evs) = IZR (refreshes evs).
Proof.
  intros Hle. rewrite (seed_run evs mounted 0); [reflexivity| |lia|lia].
  reflexivity.
Qed.
End PageFacts.

(** * Further properties of the scaling *)

Section ScalingMore.
Context {B64 : Binary64} {BI : Builtins} {BR : Browser}.
Local Open Scope R_scope.

Lemma Math_round_le (x : R) (n : Z) : x <= IZR n -> (Math_round x <= n)%Z.
Proof.
  intros Hx. unfold Math_round.
  rewrite <- (Math_round_IZR n). unfold Math_round.
  apply Zfloor_le. lra.
Qed.

Lemma width_range (w : Z) :
  (1 <= w <= 2 ^ 53)%Z -> (1 <= Preview.width w <= 1024)%Z.
Proof.
  intros Hw. destruct (Z_le_gt_dec w 1024).
  - rewrite width_small; lia.
  - rewrite width_large; lia.
Qed.

(** X9. The preview is never larger than the decoded image: for natural
    sizes between 1 and 2^53 the computed width and height do not exceed
    the image's own. *)
Theorem preview_never_enlarges (imgWidth imgHeight : Z) :
  (1 <= imgWidth <= 2 ^ 53)%Z -> (1 <= imgHeight <= 2 ^ 53)%Z ->
  (Preview.width imgWidth <= imgWidth)%Z
  /\ (Preview.height imgWidth imgHeight <= imgHeight)%Z.
Proof.
  intros Hw Hh. destruct (Z_le_gt_dec imgWidth 1024) as [Hsmall|Hlarge].
  - rewrite width_small, height_small by lia. lia.
  - rewrite width_large by lia. split; [lia|].
    destruct (scale_large imgWidth) as [[Hl Hu] H1]; [lia|].
    assert (Hpos : 0 < IZR imgHeight) by (apply IZR_lt; lia).
    assert (Hs0 : 0 <= Preview.scale imgWidth).
    { assert (1024 < IZR imgWidth) by (apply IZR_lt; lia).
      assert (0 < 1024 / IZR imgWidth) by (apply Rdiv_lt_0_compat; lra).
      pose proof eps64_bounds. nra. }
    unfold Preview.height, fmul.
    assert (Hr : rnd (IZR imgHeight * Preview.scale imgWidth) <= IZR imgHeight).
    { rewrite <- (rnd_int imgHeight) at 2 by lia. apply rnd_mono. nra. }
    apply Math_round_le in Hr. lia.
Qed.

(** X10. Beyond 1024 pixels of width the aspect ratio is kept up to the
    rounding to whole pixels: with [t = 1024 * imgHeight / imgWidth] the
    height is within half a pixel (and a millionth) of [t], and it is 1
    when [t] is below one half. *)
Theorem preview_keeps_aspect (imgWidth imgHeight : Z) :
  (1024 < imgWidth <= 2 ^ 53)%Z -> (1 <= imgHeight <= 2 ^ 31)%Z ->
  let t := 1024 * IZR imgHeight / IZR imgWidth in
  (/ 2 <= t ->
   Rabs (IZR (Preview.height imgWidth imgHeight) - t) <= 0.500001)
  /\ (t < / 2 -> Preview.height imgWidth imgHeight = 1%Z).
Proof.
  intros Hw Hh t.
  destruct (scale_large imgWidth) as [[Hl Hu] H1]; [lia|].
  pose proof eps64_bounds as He.
  assert (Hwlo : 1024 < IZR imgWidth) by (apply IZR_lt; lia).
  assert (Hwhi : IZR imgWidth <= 9007199254740992) by (apply IZR_le; lia).
  assert (Hhlo : 1 <= IZR imgHeight) by (apply IZR_le; lia).
  assert (Hhhi : IZR imgHeight <= 2147483648) by (apply IZR_le; lia).
  set (q := 1024 / IZR imgWidth) in *.
  assert (Hqw : q * IZR imgWidth = 1024) by (unfold q; field; lra).
  assert (Hq1 : q < 1) by (apply Rmult_lt_reg_r with (IZR imgWidth); lra).
  assert (Hq0 : 1e-13 <= q) by (apply Rmult_le_reg_r with (IZR imgWidth); lra).
  assert (Ht : t = IZR imgHeight * q) by (unfold t, q; field; lra).
  set (s := Preview.scale imgWidth) in *.
  set (y := IZR imgHeight * s).
  assert (Hy : t * (1 - eps64) <= y <= t * (1 + eps64)).
  { unfold y. rewrite Ht. split; nra. }
  assert (Htpos : 1e-13 <= t) by (rewrite Ht; nra).
  assert (Hthi : t <= 2147483648) by (rewrite Ht; nra).
  destruct (rnd_rel y) as [Hzl Hzu]; [nra|].
  set (z := rnd y) in *.
  assert (Hz : t - 0.000001 <= z <= t + 0.000001).
  { unfold eps64 in Hy, Hzl, Hzu. lra. }
  pose proof (Zfloor_bound (z + / 2)) as Hfl.
  unfold Preview.height, fmul. fold s. fold y. fold z. unfold Math_round.
  set (r := Zfloor (z + / 2)) in *.
  split.
  - intros Hhalf.
    assert (Hr0 : (0 <= r)%Z).
    { apply Zfloor_lub. simpl. lra. }
    destruct (Z_le_gt_dec 1 r) as [Hr1|Hr1].
    + rewrite Z.max_r by lia. apply Rabs_le. lra.
    + assert (Hr : r = 0%Z) by lia. rewrite Hr in Hfl |- *.
      rewrite Z.max_l by lia. apply Rabs_le. simpl in Hfl. lra.
  - intros Hhalf.
    assert (Hr1 : (r <= 1)%Z).
    { assert (Hlt : (r < 2)%Z); [|lia]. apply lt_IZR. lra. }
    lia.
Qed.

(** An image that reports a width of 0: the scale is 1, so the canvas
    becomes 1 pixel wide and keeps the image's height, if it has one. *)
Lemma onload_zero_width (h : Z) :
  (Z.abs h <= 2 ^ 53)%Z ->
  Preview.width 0 = 1%Z /\ Preview.height 0 h = Z.max 1 h.
Proof.
  intros Hh. unfold Preview.width, Preview.height, Preview.scale, fmul.
  cbn [Z.eqb]. rewrite !Rmult_1_r, !rnd_int by lia.
  now rewrite !Math_round_IZR.
Qed.

(** A width below 0, which [img.width] never reports: the scale is
    negative and the product is 1024 again. *)
Lemma width_negative (w : Z) :
  (- 2 ^ 53 <= w < 0)%Z -> Preview.width w = 1024%Z.
Proof.
  intros Hw. pose proof eps64_bounds as He.
  assert (Hlo : IZR w <= -1) by (apply (IZR_le w (-1)); lia).
  assert (Hhi : -9007199254740992 <= IZR w)
    by (apply (IZR_le (- 2 ^ 53) w); lia).
  set (n := - IZR w). assert (Hn : 1 <= n <= 9007199254740992)
    by (unfold n; lra).
  set (q := 1024 / n).
  assert (Hqn : q * n = 1024) by (unfold q; field; lra).
  assert (Hq : 1e-13 <= q <= 1024).
  { split; apply Rmult_le_reg_r with n; lra. }
  assert (Hdiv : IZR 1024 / IZR w = - q) by (unfold q, n; field; lra).
  pose proof (rnd_err (- q)) as Hr.
  rewrite Rabs_Ropp, (Rabs_pos_eq q) in Hr by lra.
  specialize (Hr ltac:(lra)). apply Rabs_le_both in Hr.
  assert (Hqe : 0 <= eps64 * q <= q).
  { split; [apply Rmult_le_pos; lra|].
    apply Rle_trans with (1 * q); [apply Rmult_le_compat_r; lra | lra]. }
  unfold Preview.width, fmul.
  rewrite scale_nonzero by lia. unfold Math_min, fdiv. rewrite Hdiv.
  rewrite Rmin_right by lra.
  set (s := rnd (- q)) in *.
  assert (Hp : 1024 * (1 - eps64) <= IZR w * s <= 1024 * (1 + eps64)).
  { replace (IZR w * s) with (n * (- s)) by (unfold n; lra).
    replace (1024 * (1 - eps64)) with (n * (q * (1 - eps64)))
      by (rewrite <- Hqn; ring).
    replace (1024 * (1 + eps64)) with (n * (q * (1 + eps64)))
      by (rewrite <- Hqn; ring).
    split; apply Rmult_le_compat_l; lra. }
  assert (Hrr : 1023.9 <= rnd (IZR w * s) <= 1024.1).
  { destruct (rnd_rel (IZR w * s)) as [Ha Hb]; [lra|]. nra. }
  rewrite (Math_round_near 1024) by lra. lia.
Qed.

Lemma width_range_all (w : Z) :
  (Z.abs w <= 2 ^ 53)%Z -> (1 <= Preview.width w <= 1024)%Z.
Proof.
  intros Hw. destruct (Z.lt_trichotomy w 0) as [Hneg | [-> | Hpos]].
  - rewrite width_negative; lia.
  - destruct (onload_zero_width 0%Z) as [-> _]; lia.
  - apply width_range. lia.
Qed.

Lemma canvas_bounded_handle (st : State) (ev : Event) :
  canvas_bounded st ->
  match ev with
  | ImageLoaded w _ => (Z.abs w <= 2 ^ 53)%Z
  | _ => True
  end ->
  canvas_bounded (handle st ev).
Proof.
  intros (c & Hc & Hw & Hh) Hev.
  destruct ev as [[fs|]| i | | | w h | | blob | | v | v | v]; simpl;
    try (exists c; repeat split; (assumption || lia)).
  - destruct fs as [|file rest]; [exists c; repeat split; (assumption||lia)|].
    unfold addFiles.
    destruct (ingest_each (file :: rest) [] (blobStore st) (uuidCalls st))
      as [[next store] calls].
    exists c. repeat split; (assumption || lia).
  - unfold clickCard. destruct (uploadedImages st !! i);
      exists c; repeat split; (assumption || lia).
  - unfold removeAll. simpl. rewrite Hc.
    eexists. split; [reflexivity|]. simpl. lia.
  - unfold img_onload. simpl. rewrite Hc.
    eexists. split; [reflexivity|]. simpl.
    pose proof (width_range_all w Hev). unfold Preview.height. lia.
  - unfold downloadPreview_begin. destruct (downloadPreview_guard st);
      exists c; repeat split; (assumption || lia).
  - destruct (pendingBlobs st); [exists c; repeat split; (assumption||lia)|].
    destruct blob; exists c; repeat split; (assumption || lia).
  - unfold downloadOriginal. destruct (selectedImage st);
      exists c; repeat split; (assumption || lia).
Qed.

(** X11. Whatever the page handles, and whatever the sizes of the images
    it decodes (a width of 0, which [img.onload] does not test for,
    included; widths up to [2^53] in magnitude, heights of any size), the
    canvas stays bound, at most 1024 pixels wide and of non-negative
    size. *)
Theorem canvas_stays_bounded (evs : list Event) :
  loads_exact evs -> canvas_bounded (run mounted evs).
Proof.
  assert (Hgen : forall st, canvas_bounded st -> loads_exact evs ->
                            canvas_bounded (run st evs)).
  { induction evs as [|ev rest IH]; intros st Hst Hevs; [exact Hst|].
    change (run st (ev :: rest)) with (run (handle st ev) rest).
    apply Forall_cons in Hevs as [Hev Hrest]. apply IH; [|exact Hrest].
    now apply canvas_bounded_handle. }
  apply Hgen. eexists. split; [reflexivity|]. simpl. lia.
Qed.
End ScalingMore.

(** * Further properties of the effect *)

Section EffectMore.
Context {B64 : Binary64} {BI : Builtins}.
Local Open Scope R_scope.

Lemma sparkle_loop_inside (settings : Effect.EffectSettings)
      (seed w h : R) (todo : nat) :
  0 < w -> 0 < h ->
  forall i : Z,
    length (Effect.fill_coords (Effect.sparkle_loop settings seed w h todo i))
    = todo
    /\ Forall (fun p : R * R => (0 <= p.1 < w) /\ (0 <= p.2 < h))
              (Effect.fill_coords
                 (Effect.sparkle_loop settings seed w h todo i)).
Proof.
  intros Hw Hh. induction todo as [|todo IH]; intros i.
  - split; [reflexivity | constructor].
  - cbn [Effect.sparkle_loop Effect.sparkle_body app Effect.fill_coords].
    destruct (IH (i + 1)%Z) as [Hlen Hall]. split.
    + simpl. now rewrite Hlen.
    + constructor; [|exact Hall]. simpl.
      split; apply js_rem_range; (apply Rabs_pos || assumption).
Qed.

(** X12. On a surface of positive width and height the sparkle layer fills
    [sparkCount] rectangles (none when the count is not positive), never
    more than 1400, and each one at coordinates inside the surface:
    [0 <= x < width] and [0 <= y < height]. *)
Theorem sparkles_inside_surface (settings : Effect.EffectSettings)
        (seed width height : R) :
  0 < width -> 0 < height ->
  let coords :=
    Effect.fill_coords (Effect.sparkleLayer settings seed width height) in
  length coords = Z.to_nat (Effect.sparkCount settings width height)
  /\ (length coords <= 1400)%nat
  /\ Forall (fun p : R * R => (0 <= p.1 < width) /\ (0 <= p.2 < height))
            coords.
Proof.
  intros Hw Hh coords. subst coords. unfold Effect.sparkleLayer.
  cbn [app Effect.fill_coords].
  destruct (sparkle_loop_inside settings seed width height
              (Z.to_nat (Effect.sparkCount settings width height)) Hw Hh 0)
    as [Hlen Hall].
  split; [exact Hlen|]. split; [|exact Hall].
  rewrite Hlen. unfold Effect.sparkCount. lia.
Qed.

Lemma round_intensity_18 (settings : Effect.EffectSettings) :
  0 <= Effect.intensity settings <= 1 ->
  (0 <= Math_round (Effect.intensity settings ⊗ 18) <= 18)%Z.
Proof.
  intros Hi. unfold fmul.
  set (x := rnd (Effect.intensity settings * 18)).
  assert (Hx : 0 <= x <= 18).
  { unfold x. split.
    - rewrite <- rnd_0. apply rnd_mono. lra.
    - apply Rle_trans with (rnd 18); [apply rnd_mono; lra|].
      rewrite (rnd_int 18) by lia. lra. }
  assert (Hhi : (Math_round x <= 18)%Z) by (apply Math_round_le; lra).
  assert (Hlo : (0 <= Math_round x)%Z).
  { unfold Math_round. apply Zfloor_lub. simpl. lra. }
  lia.
Qed.

(** X13. For an intensity between 0 and 1 the stripes are between 20 and
    38 pixels apart: the lower limit 16 of the source never applies. *)
Theorem stripeGap_range (settings : Effect.EffectSettings) :
  0 <= Effect.intensity settings <= 1 ->
  (20 <= Render.stripeGap settings <= 38)%Z
  /\ Render.stripeGap settings
     = (38 - Math_round (Effect.intensity settings ⊗ 18))%Z.
Proof.
  intros Hi. pose proof (round_intensity_18 settings Hi) as Hr.
  unfold Render.stripeGap. split.
  - split.
    + apply Z.max_le_iff. right. lia.
    + apply Z.max_lub; lia.
  - apply Z.max_r. lia.
Qed.

Lemma flat_map_seq_shift {A : Type} (f : nat -> list A) (len : nat) :
  forall start : nat,
    flat_map f (seq (S start) len)
    = flat_map (fun k => f (S k)) (seq start len).
Proof.
  induction len as [|len IH]; intros start; [reflexivity|].
  cbn [seq flat_map]. now rewrite IH.
Qed.

Lemma stripe_loop_S (settings : Effect.EffectSettings) (w h x : R)
      (k : nat) :
  Render.stripe_loop settings w h (S k) x
  = if Rlt_dec x (w ⊕ h)
    then match Render.stripe_loop settings w h k
                 (x ⊕ IZR (Render.stripeGap settings)) with
         | Some rest => Some (Render.stripe_body settings h x ++ rest)
         | None => None
         end
    else Some [].
Proof. reflexivity. Qed.

Lemma stripe_loop_steps (settings : Effect.EffectSettings) (w h : Z)
      (r : nat) :
  forall (x : Z) (extra : nat),
    (Z.abs (w + h) <= 2 ^ 53)%Z ->
    (- 2 ^ 52 <= x)%Z ->
    (x + Z.of_nat r * Render.stripeGap settings <= 2 ^ 53)%Z ->
    (x + (Z.of_nat r - 1) * Render.stripeGap settings < w + h)%Z ->
    (w + h <= x + Z.of_nat r * Render.stripeGap settings)%Z ->
    Render.stripe_loop settings (IZR w) (IZR h) (S r + extra) (IZR x)
    = Some (flat_map
              (fun k : nat =>
                 Render.stripe_body settings (IZR h)
                   (IZR (x + Z.of_nat k * Render.stripeGap settings)))
              (seq 0 r)).
Proof.
  assert (Hg : (16 <= Render.stripeGap settings)%Z)
    by (unfold Render.stripeGap; lia).
  set (g := Render.stripeGap settings) in *.
  induction r as [|r IH]; intros x extra Hwh Hxlo Hxhi Hlast Hend.
  - change (1 + extra)%nat with (S extra). rewrite stripe_loop_S.
    unfold fadd.
    rewrite <- plus_IZR, rnd_int by exact Hwh.
    destruct (Rlt_dec (IZR x) (IZR (w + h))) as [Hlt|_]; [|reflexivity].
    apply lt_IZR in Hlt. lia.
  - change (S (S r) + extra)%nat with (S (S r + extra)).
    rewrite stripe_loop_S. fold g.
    assert (Hsum : IZR w ⊕ IZR h = IZR (w + h)).
    { unfold fadd. now rewrite <- plus_IZR, rnd_int by exact Hwh. }
    assert (Hnext : IZR x ⊕ IZR g = IZR (x + g)).
    { unfold fadd. rewrite <- plus_IZR, rnd_int by lia. reflexivity. }
    rewrite Hsum, Hnext.
    destruct (Rlt_dec (IZR x) (IZR (w + h))) as [_|Hge].
    + rewrite (IH (x + g)%Z extra) by lia.
      cbn [seq flat_map]. rewrite flat_map_seq_shift.
      f_equal. f_equal; [do 2 f_equal; lia|].
      apply flat_map_ext. intros k. do 2 f_equal. lia.
    + exfalso. apply Hge. apply IZR_lt. lia.
Qed.

(** The number of stripes, [(width + 2 * height) / gap] rounded up. *)
Lemma stripe_count (width height g : Z) :
  (1 <= width)%Z -> (1 <= height)%Z -> (20 <= g <= 38)%Z ->
  let n := Z.to_nat ((width + 2 * height + g - 1) / g) in
  (- height + (Z.of_nat n - 1) * g < width + height
   <= - height + Z.of_nat n * g)%Z.
Proof.
  intros Hw Hh Hg n.
  set (m := ((width + 2 * height + g - 1) / g)%Z) in *.
  assert (Hm : (g * m <= width + 2 * height + g - 1 < g * m + g)%Z).
  { unfold m. pose proof (Z.mul_div_le (width + 2 * height + g - 1) g).
    pose proof (Z.mul_succ_div_gt (width + 2 * height + g - 1) g). lia. }
  assert (Hm0 : (0 <= m)%Z) by (unfold m; apply Z.div_pos; lia).
  assert (Hn : Z.of_nat n = m) by (unfold n; lia).
  rewrite Hn. nia.
Qed.

(** X14. On a surface of integer width and height between 1 and 2^31, and
    for an intensity between 0 and 1, the stripe loop stops: any supply of
    more than [n] tests of its condition, [n] being
    [(width + 2 * height) / stripeGap] rounded up, gives the same [n]
    stripes, translated to [-height], [-height + stripeGap], ... in this
    order, the last one to the left of [width + height] and less than one
    gap away from it. *)
Theorem stripe_loop_terminates (settings : Effect.EffectSettings)
        (width height : Z) (fuel : nat) :
  0 <= Effect.intensity settings <= 1 ->
  (1 <= width <= 2 ^ 31)%Z -> (1 <= height <= 2 ^ 31)%Z ->
  let g := Render.stripeGap settings in
  let n := Z.to_nat ((width + 2 * height + g - 1) / g) in
  (n < fuel)%nat ->
  Render.stripe_loop settings (IZR width) (IZR height) fuel (- IZR height)
  = Some (flat_map
            (fun k : nat =>
               Render.stripe_body settings (IZR height)
                 (IZR (- height + Z.of_nat k * g)))
            (seq 0 n))
  /\ (- height + (Z.of_nat n - 1) * g < width + height
      <= - height + Z.of_nat n * g)%Z.
Proof.
  intros Hi Hw Hh g n Hfuel.
  pose proof (round_intensity_18 settings Hi) as Hr.
  assert (Hg : (20 <= g <= 38)%Z) by (unfold g, Render.stripeGap; lia).
  pose proof (stripe_count width height g ltac:(lia) ltac:(lia) Hg)
    as Hrange.
  cbv zeta in Hrange. fold n in Hrange.
  split; [|exact Hrange].
  replace fuel with (S n + (fuel - S n))%nat by lia.
  rewrite <- opp_IZR.
  apply stripe_loop_steps; fold g; lia.
Qed.

Lemma stack_depth_app (a b : list Render.Call) :
  forall d : nat,
    Render.stack_depth (a ++ b) d
    = match Render.stack_depth a d with
      | Some d' => Render.stack_depth b d'
      | None => None
      end.
Proof.
  induction a as [|call a IH]; intros d; [reflexivity|].
  destruct call as [[]| | |]; cbn [app Render.stack_depth]; try apply IH.
  destruct d; [reflexivity | apply IH].
Qed.

Lemma global_alphas_app (a b : list Render.Call) :
  Render.global_alphas (a ++ b)
  = Render.global_alphas a ++ Render.global_alphas b.
Proof.
  induction a as [|call a IH]; [reflexivity|].
  destruct call as [[]| | |]; cbn [app Render.global_alphas];
    now rewrite IH.
Qed.

Lemma sparkle_loop_neutral (settings : Effect.EffectSettings)
      (seed w h : R) (todo : nat) :
  forall i : Z,
    (forall d, Render.stack_depth
                 (Render.Op <$> Effect.sparkle_loop settings seed w h todo i) d
               = Some d)
    /\ Render.global_alphas
         (Render.Op <$> Effect.sparkle_loop settings seed w h todo i) = [].
Proof.
  induction todo as [|todo IH]; intros i; [split; reflexivity|].
  destruct (IH (i + 1)%Z) as [Hd Ha].
  cbn [Effect.sparkle_loop Effect.sparkle_body app fmap list_fmap
       Render.stack_depth Render.global_alphas].
  split; [intros d; apply Hd | exact Ha].
Qed.

Lemma stripes_neutral (settings : Effect.EffectSettings) (h : R)
      (xs : list R) :
  (forall d, Render.stack_depth
               (flat_map (Render.stripe_body settings h) xs) d = Some d)
  /\ Render.global_alphas (flat_map (Render.stripe_body settings h) xs) = [].
Proof.
  induction xs as [|x xs [Hd Ha]]; [split; reflexivity|].
  cbn [flat_map Render.stripe_body app Render.stack_depth
       Render.global_alphas].
  split; [intros d; apply Hd | exact Ha].
Qed.

(** The calls of the whole effect, once the stripe loop has been run. *)
Lemma applyDummyEffect_calls (settings : Effect.EffectSettings) (seed : R)
      (width height : Z) (fuel : nat) :
  0 <= Effect.intensity settings <= 1 ->
  (1 <= width <= 2 ^ 31)%Z -> (1 <= height <= 2 ^ 31)%Z ->
  let g := Render.stripeGap settings in
  let n := Z.to_nat ((width + 2 * height + g - 1) / g) in
  (n < fuel)%nat ->
  Render.applyDummyEffect settings seed (IZR width) (IZR height) fuel
  = Some
      ((Render.Op <$> Effect.tintLayer settings (IZR width) (IZR height))
       ++ (Render.stripe_setup settings
           ++ flat_map (Render.stripe_body settings (IZR height))
                (map (fun k : nat => IZR (- height + Z.of_nat k * g))
                     (seq 0 n)))
       ++ (Render.Op
           <$> Effect.sparkleLayer settings seed (IZR width) (IZR height))
       ++ [ Render.Op (Effect.SetGlobalCompositeOperation "source-over");
            Render.Restore ]).
Proof.
  intros Hi Hw Hh g n Hfuel.
  pose proof (round_intensity_18 settings Hi) as Hr.
  assert (Hg : (20 <= g <= 38)%Z) by (unfold g, Render.stripeGap; lia).
  pose proof (stripe_count width height g ltac:(lia) ltac:(lia) Hg)
    as Hrange.
  cbv zeta in Hrange. fold n in Hrange.
  assert (Hloop :
            Render.stripe_loop settings (IZR width) (IZR height) fuel
              (- IZR height)
            = Some (flat_map
                      (fun k : nat =>
                         Render.stripe_body settings (IZR height)
                           (IZR (- height + Z.of_nat k * g)))
                      (seq 0 n))).
  { replace fuel with (S n + (fuel - S n))%nat by lia.
    rewrite <- opp_IZR.
    apply stripe_loop_steps; fold g; lia. }
  unfold Render.applyDummyEffect, Render.stripeLayer. rewrite Hloop.
  do 4 f_equal.
  generalize (seq 0 n). intros l.
  induction l as [|k l IH]; [reflexivity|].
  cbn [flat_map map]. now rewrite IH.
Qed.

(** X15. On such a surface, for an intensity between 0 and 1, the effect
    as a whole runs to its end and leaves the state stack of the context
    as deep as it found it: no [restore] is without its [save] and none
    is missing. *)
Theorem applyDummyEffect_balanced (settings : Effect.EffectSettings)
        (seed : R) (width height : Z) (fuel : nat) :
  0 <= Effect.intensity settings <= 1 ->
  (1 <= width <= 2 ^ 31)%Z -> (1 <= height <= 2 ^ 31)%Z ->
  (Z.to_nat ((width + 2 * height + Render.stripeGap settings - 1)
             / Render.stripeGap settings) < fuel)%nat ->
  exists calls : list Render.Call,
    Render.applyDummyEffect settings seed (IZR width) (IZR height) fuel
    = Some calls
    /\ forall depth : nat, Render.stack_depth calls depth = Some depth.
Proof.
  intros Hi Hw Hh Hfuel. eexists. split.
  - apply applyDummyEffect_calls; assumption.
  - intros depth.
    rewrite stack_depth_app. cbn [Effect.tintLayer fmap list_fmap
                                  Render.stack_depth].
    rewrite stack_depth_app, stack_depth_app.
    cbn [Render.stripe_setup Render.stack_depth].
    rewrite (proj1 (stripes_neutral settings (IZR height) _)).
    rewrite stack_depth_app.
    unfold Effect.sparkleLayer.
    cbn [app fmap list_fmap Render.stack_depth].
    rewrite (proj1 (sparkle_loop_neutral settings seed _ _ _ 0)).
    reflexivity.
Qed.

(** X16. For an intensity and a grain between 0 and 1 the effect assigns
    [globalAlpha] twice, for the stripes and for the sparkles, each time a
    value strictly between 0 and 1 (which a context accepts). *)
Theorem applyDummyEffect_alphas (settings : Effect.EffectSettings)
        (seed : R) (width height : Z) (fuel : nat) :
  0 <= Effect.intensity settings <= 1 ->
  0 <= Effect.grain settings <= 1 ->
  (1 <= width <= 2 ^ 31)%Z -> (1 <= height <= 2 ^ 31)%Z ->
  (Z.to_nat ((width + 2 * height + Render.stripeGap settings - 1)
             / Render.stripeGap settings) < fuel)%nat ->
  exists (calls : list Render.Call) (stripes sparkles : R),
    Render.applyDummyEffect settings seed (IZR width) (IZR height) fuel
    = Some calls
    /\ Render.global_alphas calls = [stripes; sparkles]
    /\ 0.13 <= stripes <= 0.35
    /\ 0.13 <= sparkles <= 0.5.
Proof.
  intros Hi Hgr Hw Hh Hfuel. eexists. eexists. eexists. split.
  - apply applyDummyEffect_calls; assumption.
  - split.
    + rewrite global_alphas_app. cbn [Effect.tintLayer fmap list_fmap
                                      Render.global_alphas].
      rewrite global_alphas_app, global_alphas_app.
      cbn [Render.stripe_setup Render.global_alphas].
      rewrite (proj2 (stripes_neutral settings (IZR height) _)).
      rewrite global_alphas_app.
      unfold Effect.sparkleLayer.
      cbn [app fmap list_fmap Render.global_alphas].
      rewrite (proj2 (sparkle_loop_neutral settings seed _ _ _ 0)).
      reflexivity.
    + pose proof eps64_bounds as He. unfold fadd, fmul, lit.
      destruct (rnd_rel 0.14) as [A1 A2]; [lra|].
      destruct (rnd_rel 0.2) as [B1 B2]; [lra|].
      destruct (rnd_rel 0.35) as [C1 C2]; [lra|].
      destruct (rnd_rel 0.4) as [D1 D2]; [lra|].
      destruct (rnd_rel 0.205) as [E1 E2]; [lra|].
      set (i := Effect.intensity settings) in *.
      set (gr := Effect.grain settings) in *.
      assert (Hp : 0 <= rnd (i * rnd 0.2) <= 0.206).
      { split.
        - rewrite <- rnd_0. apply rnd_mono. nra.
        - apply Rle_trans with (rnd 0.205); [apply rnd_mono; nra | nra]. }
      set (x := rnd 0.14 + rnd (i * rnd 0.2)).
      assert (Hx : 0.139 <= x <= 0.347) by (unfold x; lra).
      destruct (rnd_rel x) as [F1 F2]; [lra|].
      set (y := rnd 0.4 + gr).
      assert (Hy : 0.399 <= y <= 1.401) by (unfold y; lra).
      destruct (rnd_rel y) as [G1 G2]; [lra|].
      assert (Hq : 0.39 <= rnd y <= 1.41) by (clear - G1 G2 Hy He; nra).
      set (z := rnd 0.35 * rnd y).
      assert (Hz : 0.136 <= z <= 0.494)
        by (unfold z; clear - C1 C2 Hq He; nra).
      destruct (rnd_rel z) as [K1 K2]; [lra|].
      split; [clear - F1 F2 Hx He | clear - K1 K2 Hz He]; nra.
Qed.
End EffectMore.

(** * Further properties of [withAlpha] and [formatSize] *)

Section TextFacts.
Context {B64 : Binary64} {BI : Builtins}.

Lemma land_255_range (n : Z) : (0 <= Z.land n 255 <= 255)%Z.
Proof.
  assert (Hm : Z.land n 255 = (n mod 256)%Z).
  { change 255%Z with (Z.ones 8). now rewrite Z.land_ones by lia. }
  rewrite Hm. pose proof (Z.mod_pos_bound n 256). lia.
Qed.

(** X17. Whatever text it is given, [withAlpha] answers a well-formed
    [rgba(r, g, b, a)] whose three channels are integers between 0 and
    255. *)
Theorem withAlpha_channels_in_range (hex : string) (alpha : R) :
  exists r g b : Z,
    Color.withAlpha hex alpha
    = ("rgba(" ++ Color.int_toString r ++ ", " ++ Color.int_toString g
         ++ ", " ++ Color.int_toString b ++ ", "
         ++ Number_toString alpha ++ ")")%string
    /\ (0 <= r <= 255)%Z /\ (0 <= g <= 255)%Z /\ (0 <= b <= 255)%Z.
Proof.
  unfold Color.withAlpha. do 3 eexists. split; [reflexivity|].
  repeat split; apply land_255_range.
Qed.

Lemma not_hex_not_zero (c : ascii) :
  Color.hex_digit c = None -> Ascii.eqb c "0" = false.
Proof.
  intros Hc.
  destruct c as [[] [] [] [] [] [] [] []]; vm_compute in Hc;
    try discriminate Hc; reflexivity.
Qed.

Lemma parseInt16_not_hex (c : ascii) (rest : string) :
  Color.hex_digit c = None -> Color.is_white_space c = false ->
  c <> "+"%char -> c <> "-"%char ->
  Color.parseInt16 (String c rest) = None.
Proof.
  intros Hc Hws Hplus Hminus.
  apply Ascii.eqb_neq in Hplus. apply Ascii.eqb_neq in Hminus.
  unfold Color.parseInt16. cbn [Color.skip_white_space]. rewrite Hws.
  cbn [Color.strip_sign]. rewrite Hminus, Hplus.
  assert (H0x : Color.strip_0x (String c rest) = String c rest).
  { destruct rest as [|c2 rest]; [reflexivity|].
    cbn [Color.strip_0x]. now rewrite (not_hex_not_zero c Hc). }
  rewrite H0x. cbn [Color.hex_prefix]. now rewrite Hc.
Qed.

(** X18. A colour text that, its first [#] apart, does not start with a
    hexadecimal digit, a sign or white space (a colour name such as [red],
    say) is read as black: [parseInt] gives NaN and the three channels are
    0. *)
Theorem withAlpha_not_hex_is_black (c : ascii) (rest : string) (alpha : R) :
  Color.hex_digit c = None -> Color.is_white_space c = false ->
  c <> "+"%char -> c <> "-"%char -> c <> "#"%char ->
  Color.withAlpha (String c rest) alpha
  = ("rgba(0, 0, 0, " ++ Number_toString alpha ++ ")")%string
  /\ Color.withAlpha (String "#" (String c rest)) alpha
     = ("rgba(0, 0, 0, " ++ Number_toString alpha ++ ")")%string.
Proof.
  intros Hc Hws Hplus Hminus Hhash.
  assert (Hfull : forall s : string,
             Color.ToInt32
               (Color.parseInt16
                  (if Nat.eqb (String.length (String c s)) 3
                   then Color.double_chars (String c s)
                   else Color.padEnd6 (String c s))) = 0%Z).
  { intros s. destruct (Nat.eqb (String.length (String c s)) 3).
    - cbn [Color.double_chars]. now rewrite parseInt16_not_hex.
    - unfold Color.padEnd6.
      change (String c s ++ Color.zeros (6 - String.length (String c s)))%string
        with (String c (s ++ Color.zeros
                               (6 - String.length (String c s))))%string.
      now rewrite parseInt16_not_hex. }
  apply Ascii.eqb_neq in Hhash.
  split.
  - unfold Color.withAlpha. cbn [Color.replace_hash]. rewrite Hhash.
    rewrite Hfull. reflexivity.
  - unfold Color.withAlpha. cbn [Color.replace_hash Ascii.eqb Bool.eqb].
    rewrite Hfull. reflexivity.
Qed.

(** X19. An eight-digit colour [#rrggbbaa] is not rejected: its first pair
    is lost and the channels are read from the last three pairs. *)
Theorem withAlpha_eight_digits (alpha : R)
        (c1 c2 c3 c4 c5 c6 c7 c8 : ascii) (v1 v2 v3 v4 v5 v6 v7 v8 : Z) :
  Color.hex_digit c1 = Some v1 -> Color.hex_digit c2 = Some v2 ->
  Color.hex_digit c3 = Some v3 -> Color.hex_digit c4 = Some v4 ->
  Color.hex_digit c5 = Some v5 -> Color.hex_digit c6 = Some v6 ->
  Color.hex_digit c7 = Some v7 -> Color.hex_digit c8 = Some v8 ->
  Color.withAlpha
    (String "#" (String c1 (String c2 (String c3 (String c4 (String c5
       (String c6 (String c7 (String c8 EmptyString)))))))))
    alpha
  = ("rgba(" ++ Color.int_toString (16 * v3 + v4) ++ ", "
       ++ Color.int_toString (16 * v5 + v6) ++ ", "
       ++ Color.int_toString (16 * v7 + v8) ++ ", "
       ++ Number_toString alpha ++ ")")%string.
Proof.
  intros H1 H2 H3 H4 H5 H6 H7 H8.
  destruct (hex_digit_facts _ _ H1) as (B1 & Hws & Hm & Hp & _ & _).
  destruct (hex_digit_facts _ _ H2) as (B2 & _ & _ & _ & Hx & HX).
  destruct (hex_digit_facts _ _ H3) as (B3 & _).
  destruct (hex_digit_facts _ _ H4) as (B4 & _).
  destruct (hex_digit_facts _ _ H5) as (B5 & _).
  destruct (hex_digit_facts _ _ H6) as (B6 & _).
  destruct (hex_digit_facts _ _ H7) as (B7 & _).
  destruct (hex_digit_facts _ _ H8) as (B8 & _).
  unfold Color.withAlpha.
  cbn [Color.replace_hash Ascii.eqb Bool.eqb String.length Nat.eqb].
  change (Color.padEnd6
            (String c1 (String c2 (String c3 (String c4 (String c5
               (String c6 (String c7 (String c8 EmptyString)))))))))
    with (String c1 (String c2 (String c3 (String c4 (String c5
            (String c6 (String c7 (String c8 EmptyString)))))))).
  unfold Color.parseInt16. cbn [Color.skip_white_space]. rewrite Hws.
  cbn [Color.strip_sign]. rewrite Hm, Hp.
  cbn [Color.strip_0x]. rewrite Hx, HX, andb_false_r.
  cbn [Color.hex_prefix]. rewrite H1, H2, H3, H4, H5, H6, H7, H8.
  unfold Color.ToInt32.
  rewrite rnd_int by lia. rewrite Ztrunc_IZR.
  set (n := (1 * (16 * (16 * (16 * (16 * (16 * (16 * (16 * (16 * 0 + v1)
               + v2) + v3) + v4) + v5) + v6) + v7) + v8))%Z).
  assert (Hn : (0 <= n < 2 ^ 32)%Z) by (unfold n; lia).
  rewrite Z.mod_small by exact Hn.
  set (t := if (n <? 2 ^ 31)%Z then n else (n - 2 ^ 32)%Z).
  assert (Ht : exists k : Z, t = (n - 4294967296 * k)%Z).
  { unfold t. destruct (n <? 2 ^ 31)%Z; [exists 0%Z | exists 1%Z]; lia. }
  destruct Ht as [k Ht].
  assert (Hr : Z.land (Z.shiftr t 16) 255 = (16 * v3 + v4)%Z).
  { rewrite Z.shiftr_div_pow2 by lia. change 255%Z with (Z.ones 8).
    rewrite Z.land_ones by lia. change (2 ^ 16)%Z with 65536%Z.
    change (2 ^ 8)%Z with 256%Z. rewrite Ht. unfold n.
    Z.to_euclidean_division_equations. lia. }
  assert (Hg : Z.land (Z.shiftr t 8) 255 = (16 * v5 + v6)%Z).
  { rewrite Z.shiftr_div_pow2 by lia. change 255%Z with (Z.ones 8).
    rewrite Z.land_ones by lia. change (2 ^ 8)%Z with 256%Z.
    rewrite Ht. unfold n.
    Z.to_euclidean_division_equations. lia. }
  assert (Hb : Z.land t 255 = (16 * v7 + v8)%Z).
  { change 255%Z with (Z.ones 8).
    rewrite Z.land_ones by lia. change (2 ^ 8)%Z with 256%Z.
    rewrite Ht. unfold n.
    Z.to_euclidean_division_equations. lia. }
  now rewrite Hr, Hg, Hb.
Qed.

Lemma replace_hash_none (s : string) :
  ~ In "#"%char (list_ascii_of_string s) -> Color.replace_hash s = s.
Proof.
  induction s as [|c s IH]; intros Hs; [reflexivity|].
  cbn [Color.replace_hash].
  destruct (Ascii.eqb c "#") eqn:Hc.
  - apply Ascii.eqb_eq in Hc. exfalso. apply Hs. simpl. now left.
  - rewrite IH; [reflexivity|]. intros Hin. apply Hs. simpl. now right.
Qed.

(** X20. The leading [#] is optional: a colour text without any [#] gives
    the same result with or without one in front. *)
Theorem withAlpha_hash_optional (s : string) (alpha : R) :
  ~ In "#"%char (list_ascii_of_string s) ->
  Color.withAlpha (String "#" s) alpha = Color.withAlpha s alpha.
Proof.
  intros Hs. unfold Color.withAlpha.
  cbn [Color.replace_hash Ascii.eqb Bool.eqb].
  now rewrite (replace_hash_none s Hs).
Qed.
End TextFacts.

Section FormatFacts.
Context {B64 : Binary64}.
Local Open Scope R_scope.

Lemma toFixed_nonneg (x : R) (f : nat) :
  0 <= x -> Format.toFixed x f = Format.toFixed_abs x f.
Proof.
  intros Hx. unfold Format.toFixed.
  destruct (Rlt_dec x 0) as [Hneg|_]; [lra | reflexivity].
Qed.

Lemma string_app_assoc (a b c : string) :
  ((a ++ b) ++ c = a ++ (b ++ c))%string.
Proof.
  induction a as [|ch a IH]; [reflexivity|].
  change ((String ch ((a ++ b) ++ c))%string
          = String ch (a ++ (b ++ c))%string).
  now rewrite IH.
Qed.

(** X21. Sizes that are whole numbers of KiB or MiB are shown exactly:
    [k * 1024] bytes as [k.0 KB] for [k] from 1 to 1023, and
    [k * 1024 * 1024] bytes as [k.00 MB] for [k] from 1 to 2^32. *)
Theorem formatSize_whole_units (k : Z) :
  ((1 <= k < 1024)%Z ->
   Format.formatSize (1024 * k)
   = (Color.int_toString k ++ ".0 KB")%string)
  /\ ((1 <= k <= 2 ^ 32)%Z ->
      Format.formatSize (1048576 * k)
      = (Color.int_toString k ++ ".00 MB")%string).
Proof.
  split; intros Hk.
  - unfold Format.formatSize.
    destruct (Z.ltb_spec (1024 * k) 1024); [lia|].
    destruct (Z.ltb_spec (1024 * k) (1024 * 1024)); [|lia].
    assert (Hq : IZR (1024 * k) ⊘ 1024 = IZR k).
    { unfold fdiv. rewrite mult_IZR.
      replace (1024 * IZR k / 1024) with (IZR k) by (field; lra).
      apply rnd_int. lia. }
    rewrite Hq.
    rewrite toFixed_nonneg by (apply IZR_le; lia).
    unfold Format.toFixed_abs.
    change (10 ^ Z.of_nat 1)%Z with 10%Z.
    rewrite <- mult_IZR.
    assert (Hn : Zfloor (IZR (k * 10) + / 2) = (k * 10)%Z)
      by (apply Zfloor_eq; lra).
    rewrite Hn, Z.div_mul, Z.mod_mul by lia.
    rewrite string_app_assoc. reflexivity.
  - unfold Format.formatSize.
    destruct (Z.ltb_spec (1048576 * k) 1024); [lia|].
    destruct (Z.ltb_spec (1048576 * k) (1024 * 1024)); [lia|].
    assert (Hq : IZR (1048576 * k) ⊘ IZR (1024 * 1024) = IZR k).
    { unfold fdiv. rewrite mult_IZR.
      change (1024 * 1024)%Z with 1048576%Z.
      replace (1048576 * IZR k / 1048576) with (IZR k) by (field; lra).
      apply rnd_int. lia. }
    rewrite Hq.
    rewrite toFixed_nonneg by (apply IZR_le; lia).
    unfold Format.toFixed_abs.
    change (10 ^ Z.of_nat 2)%Z with 100%Z.
    rewrite <- mult_IZR.
    assert (Hn : Zfloor (IZR (k * 100) + / 2) = (k * 100)%Z)
      by (apply Zfloor_eq; lra).
    rewrite Hn, Z.div_mul, Z.mod_mul by lia.
    rewrite string_app_assoc. reflexivity.
Qed.

(** X22. A size in the last 51 bytes below one MiB is shown as
    [1024.0 KB]: the switch to MB happens on the bytes, the rounding to
    one decimal afterwards. *)
Theorem formatSize_below_one_MiB (bytes : Z) :
  (1048525 <= bytes < 1048576)%Z ->
  Format.formatSize bytes = "1024.0 KB".
Proof.
  intros Hb. unfold Format.formatSize.
  destruct (Z.ltb_spec bytes 1024); [lia|].
  destruct (Z.ltb_spec bytes (1024 * 1024)); [|lia].
  assert (Hlo : 1048525 <= IZR bytes) by (apply IZR_le; lia).
  assert (Hhi : IZR bytes <= 1048575) by (apply IZR_le; lia).
  pose proof eps64_bounds as He.
  unfold fdiv. set (q := IZR bytes / 1024).
  assert (Hq : 1023.9501 <= q <= 1023.9991) by (unfold q; lra).
  destruct (rnd_rel q) as [Hl Hu]; [lra|].
  set (x := rnd q) in *.
  assert (Hx : 1023.95005 <= x <= 1023.99915) by nra.
  rewrite toFixed_nonneg by lra.
  unfold Format.toFixed_abs.
  change (10 ^ Z.of_nat 1)%Z with 10%Z.
  assert (Hn : Zfloor (x * 10 + / 2) = 10240%Z)
    by (apply Zfloor_eq; lra).
  rewrite Hn. reflexivity.
Qed.
End FormatFacts.

(** ** These properties at concrete inputs *)

Lemma registry_append_only_witness :
  exists more : list UploadedImage,
    uploadedImages
      (@run exact_rounding counter_browser one_image
         [Ingest (Some [cat_png]); Refresh; ClickCard 1])
    = uploadedImages one_image ++ more.
Proof.
  apply (@registry_append_only exact_rounding counter_browser
           [Ingest (Some [cat_png]); Refresh; ClickCard 1] one_image).
  reflexivity.
Defined.

Lemma seed_counts_refreshes_witness :
  animationSeed
    (@run exact_rounding counter_browser (@mounted exact_rounding)
       [Refresh; Ingest (Some [cat_png]); Refresh])
  = IZR 2.
Proof.
  apply (@seed_counts_refreshes exact_rounding counter_browser
           [Refresh; Ingest (Some [cat_png]); Refresh]).
  simpl. lia.
Defined.

Lemma preview_never_enlarges_witness :
  (@Preview.width exact_rounding 2000 <= 2000)%Z
  /\ (@Preview.height exact_rounding 2000 1000 <= 1000)%Z.
Proof.
  apply (@preview_never_enlarges exact_rounding 2000 1000); lia.
Defined.

Lemma preview_keeps_aspect_witness :
  ((/ 2 <= 1024 * IZR 1000 / IZR 2000)%R ->
   (Rabs (IZR (@Preview.height exact_rounding 2000 1000)
          - 1024 * IZR 1000 / IZR 2000) <= 0.500001)%R)
  /\ ((1024 * IZR 1000 / IZR 2000 < / 2)%R ->
      @Preview.height exact_rounding 2000 1000 = 1%Z).
Proof.
  apply (@preview_keeps_aspect exact_rounding 2000 1000); lia.
Defined.

Lemma canvas_stays_bounded_witness :
  canvas_bounded
    (@run exact_rounding counter_browser (@mounted exact_rounding)
       [Ingest (Some [cat_png]); ImageLoaded 0 7; ImageLoaded 2000 1000]).
Proof.
  apply (@canvas_stays_bounded exact_rounding counter_browser
           [Ingest (Some [cat_png]); ImageLoaded 0 7;
            ImageLoaded 2000 1000]).
  repeat constructor; lia.
Defined.

Lemma sparkles_inside_surface_witness :
  length
    (Effect.fill_coords
       (@Effect.sparkleLayer exact_rounding real_builtins default_settings 0
          100 100))
  = Z.to_nat (@Effect.sparkCount exact_rounding default_settings 100 100)
  /\ (length
        (Effect.fill_coords
           (@Effect.sparkleLayer exact_rounding real_builtins
              default_settings 0 100 100)) <= 1400)%nat
  /\ Forall (fun p : R * R => (0 <= p.1 < 100)%R /\ (0 <= p.2 < 100)%R)
            (Effect.fill_coords
               (@Effect.sparkleLayer exact_rounding real_builtins
                  default_settings 0 100 100)).
Proof.
  apply (@sparkles_inside_surface exact_rounding real_builtins
           default_settings 0 100 100); lra.
Defined.

Lemma stripeGap_range_witness :
  (20 <= @Render.stripeGap exact_rounding default_settings <= 38)%Z
  /\ @Render.stripeGap exact_rounding default_settings
     = (38 - Math_round (0.55 * 18)%R)%Z.
Proof.
  apply (@stripeGap_range exact_rounding default_settings). simpl. lra.
Defined.

Lemma stripeGap_default :
  @Render.stripeGap exact_rounding default_settings = 28%Z.
Proof.
  unfold Render.stripeGap, fmul. simpl.
  rewrite (Math_round_near 10) by lra. reflexivity.
Qed.

Lemma stripe_fuel_default :
  (Z.to_nat
     ((100 + 2 * 50 + @Render.stripeGap exact_rounding default_settings - 1)
      / @Render.stripeGap exact_rounding default_settings)%Z < 100)%nat.
Proof. rewrite stripeGap_default. vm_compute. lia. Qed.

Lemma stripe_loop_terminates_witness :
  @Render.stripe_loop exact_rounding default_settings
    (IZR 100) (IZR 50) 100 (- IZR 50)%R
  = Some
      (flat_map
         (fun k : nat =>
            @Render.stripe_body exact_rounding
              default_settings (IZR 50)
              (IZR (- 50 + Z.of_nat k
                           * @Render.stripeGap exact_rounding
                               default_settings)%Z))
         (seq 0
            (Z.to_nat
               ((100 + 2 * 50
                 + @Render.stripeGap exact_rounding default_settings - 1)
                / @Render.stripeGap exact_rounding default_settings)%Z))).
Proof.
  apply (@stripe_loop_terminates exact_rounding
           default_settings 100 50 100).
  - simpl. lra.
  - lia.
  - lia.
  - exact stripe_fuel_default.
Defined.

Lemma applyDummyEffect_balanced_witness :
  exists calls : list Render.Call,
    @Render.applyDummyEffect exact_rounding real_builtins default_settings
      0 (IZR 100) (IZR 50) 100
    = Some calls
    /\ forall depth : nat, Render.stack_depth calls depth = Some depth.
Proof.
  apply (@applyDummyEffect_balanced exact_rounding real_builtins
           default_settings 0 100 50 100).
  - simpl. lra.
  - lia.
  - lia.
  - exact stripe_fuel_default.
Defined.

Lemma applyDummyEffect_alphas_witness :
  exists (calls : list Render.Call) (stripes sparkles : R),
    @Render.applyDummyEffect exact_rounding real_builtins default_settings
      0 (IZR 100) (IZR 50) 100
    = Some calls
    /\ Render.global_alphas calls = [stripes; sparkles]
    /\ (0.13 <= stripes <= 0.35)%R
    /\ (0.13 <= sparkles <= 0.5)%R.
Proof.
  apply (@applyDummyEffect_alphas exact_rounding real_builtins
           default_settings 0 100 50 100).
  - simpl. lra.
  - simpl. lra.
  - lia.
  - lia.
  - exact stripe_fuel_default.
Defined.

Lemma withAlpha_not_hex_is_black_witness :
  @Color.withAlpha exact_rounding real_builtins "red" 0.165
  = "rgba(0, 0, 0, 0.165)".
Proof.
  apply (@withAlpha_not_hex_is_black exact_rounding real_builtins
           "r" "ed" 0.165); (reflexivity || discriminate).
Defined.

Lemma withAlpha_eight_digits_witness :
  @Color.withAlpha exact_rounding real_builtins "#ff7c3aed" 0.165
  = "rgba(124, 58, 237, 0.165)".
Proof.
  apply (@withAlpha_eight_digits exact_rounding real_builtins 0.165
           "f" "f" "7" "c" "3" "a" "e" "d" 15 15 7 12 3 10 14 13);
    reflexivity.
Defined.

Lemma withAlpha_hash_optional_witness :
  @Color.withAlpha exact_rounding real_builtins "#7c3aed" 0.165
  = @Color.withAlpha exact_rounding real_builtins "7c3aed" 0.165.
Proof.
  apply (@withAlpha_hash_optional exact_rounding real_builtins
           "7c3aed" 0.165).
  simpl. intros H. repeat (destruct H as [H|H]; [discriminate H|]).
  exact H.
Defined.

Lemma formatSize_whole_units_witness :
  @Format.formatSize exact_rounding (1024 * 5) = "5.0 KB"
  /\ @Format.formatSize exact_rounding (1048576 * 5) = "5.00 MB".
Proof.
  destruct (@formatSize_whole_units exact_rounding 5) as [Hkb Hmb].
  split; [apply Hkb | apply Hmb]; lia.
Defined.

Lemma formatSize_below_one_MiB_witness :
  @Format.formatSize exact_rounding 1048575 = "1024.0 KB".
Proof.
  apply (@formatSize_below_one_MiB exact_rounding 1048575). lia.
Defined.
